(** * Room/session engine of chat-server.js

    A shallow embedding of the server-side chat logic of
    [src/chat-server.js] (the [rooms] and [clients] stores, [ensureRoom]
    and the handlers registered with [socket.on]) together with the
    properties of the engine stated in the specification.

    Conventions.
    - A JavaScript string is a [string]; its characters stand for UTF-16
      code units in the range 0-255.
    - A payload field is a [JsValue]; a field the payload omits is
      [JsUndefined].  The payloads of [joinRoom] and [privateMessage] are
      objects, as the handlers destructure them.
    - [rooms] and [clients] are never iterated by the code, so they are
      finite maps ([gmap]).  The roster [users] of a room is iterated
      ([Array.from(r.users.values())], [for ... of r.users.entries()]), so
      it is kept as an insertion-ordered association list with the
      behaviour of a JavaScript [Map].
    - Socket.IO is external.  Every call a handler makes into it
      ([socket.join], [socket.leave], [socket.emit], [socket.to(..).emit],
      [io.to(..).emit]) is recorded, in program order, as an [Action].
      [console.log] calls are not recorded.
    - [Date.now()] is the argument [now] of the handlers that read it. *)

From Stdlib Require Import ZArith String Ascii List Sorted.
From stdpp Require Import gmap strings list fin_maps.

Open Scope string_scope.
Open Scope list_scope.
Open Scope nat_scope.

(** ** JavaScript values and string primitives *)

(** The values a payload field can hold.  [JsOther text] stands for a
    number, an array or an object, of which the handlers only ever use the
    text [String] gives for it. *)
Inductive JsValue :=
  | JsUndefined
  | JsNull
  | JsBool (b : bool)
  | JsString (s : string)
  | JsOther (text : string).

(** [String(v)] *)
Definition toString (v : JsValue) : string :=
  match v with
  | JsUndefined => "undefined"
  | JsNull => "null"
  | JsBool true => "true"
  | JsBool false => "false"
  | JsString s => s
  | JsOther text => text
  end.

(** [uname === v] for a string [uname]: only a string is equal to it *)
Definition strictEq (uname : string) (v : JsValue) : bool :=
  match v with
  | JsString s => bool_decide (uname = s)
  | _ => false
  end.

(** White space and line terminators removed by [String.prototype.trim],
    among the code units 0-255: TAB, LF, VT, FF, CR, SP and NBSP. *)
Definition isWhiteSpace (c : ascii) : bool :=
  let n := nat_of_ascii c in
  (Nat.leb 9 n && Nat.leb n 13) || Nat.eqb n 32 || Nat.eqb n 160.

Fixpoint trimStart (s : string) : string :=
  match s with
  | EmptyString => EmptyString
  | String c s' => if isWhiteSpace c then trimStart s' else s
  end.

Fixpoint trimEnd (s : string) : string :=
  match s with
  | EmptyString => EmptyString
  | String c s' =>
      match trimEnd s' with
      | EmptyString => if isWhiteSpace c then EmptyString else String c EmptyString
      | t => String c t
      end
  end.

(** [s.trim()] *)
Definition trim (s : string) : string := trimEnd (trimStart s).

(** [s.substring(0, n)] *)
Definition substring0 (n : nat) (s : string) : string := String.substring 0 n s.

(** [s || d]: the empty string is falsy *)
Definition orDefault (s d : string) : string :=
  match s with
  | EmptyString => d
  | _ => s
  end.

(** [a.slice(-n)] on an array *)
Definition sliceLast {A} (n : nat) (a : list A) : list A :=
  skipn (length a - n) a.

(** ** JavaScript [Map] with its insertion order *)

Section JsMap.
Context {K V : Type} `{EqDecision K}.

(** [m.get(k)] *)
Fixpoint jmap_get (k : K) (m : list (K * V)) : option V :=
  match m with
  | [] => None
  | (k', v') :: m' => if decide (k' = k) then Some v' else jmap_get k m'
  end.

(** [m.set(k, v)]: an existing key keeps its position *)
Fixpoint jmap_set (k : K) (v : V) (m : list (K * V)) : list (K * V) :=
  match m with
  | [] => [(k, v)]
  | (k', v') :: m' =>
      if decide (k' = k) then (k, v) :: m' else (k', v') :: jmap_set k v m'
  end.

(** [m.delete(k)] *)
Fixpoint jmap_delete (k : K) (m : list (K * V)) : list (K * V) :=
  match m with
  | [] => []
  | (k', v') :: m' =>
      if decide (k' = k) then jmap_delete k m' else (k', v') :: jmap_delete k m'
  end.

(** [Array.from(m.values())] *)
Definition jmap_values (m : list (K * V)) : list V := m.*2.
End JsMap.

(** ** The stores *)

Definition SocketId := string.

(** [{ username, room }], the value type of [clients] *)
Record ClientInfo := { username : string; room : string }.

(** [{ username, text, ts }], an entry of a room's history *)
Record Message := { msg_username : string; msg_text : string; msg_ts : Z }.

(** [{ users: Map(socketId -> username), history: [...] }] *)
Record Room := { users : list (SocketId * string); history : list Message }.

Record State := {
  rooms : gmap string Room;
  clients : gmap SocketId ClientInfo
}.

Definition init : State := {| rooms := ∅; clients := ∅ |}.

Definition ensureRoom (name : string) (rs : gmap string Room)
  : gmap string Room * Room :=
  match rs !! name with
  | Some r => (rs, r)
  | None =>
      let r := {| users := []; history := [] |} in
      (<[name := r]> rs, r)
  end.

(** ** Calls into Socket.IO *)

Inductive Target :=
  | SocketEmit (sid : SocketId)               (* socket.emit(..) *)
  | SocketTo (sid : SocketId) (name : string) (* socket.to(name).emit(..) *)
  | IoTo (name : string).                     (* io.to(name).emit(..) *)

Inductive Outbound :=
  | System (txt : string)
  | Users (names : list string)
  | Joined (rname uname : string) (names : list string) (hist : list Message)
  | Left (rname uname : string)
  | MessageEv (m : Message)
  | TypingEv (uname : string)
  | StopTypingEv
  | PrivateMessageEv (from : string) (message : JsValue) (ts : Z).

Inductive Action :=
  | Join (sid : SocketId) (name : string)     (* socket.join(name) *)
  | Leave (sid : SocketId) (name : string)    (* socket.leave(name) *)
  | Emit (t : Target) (e : Outbound).

(** ** The handlers *)

(** [String(username).trim().substring(0, 32) || 'Anonymous'] *)
Definition normUsername (username0 : JsValue) : string :=
  orDefault (substring0 32 (trim (toString username0))) "Anonymous".

(** [String(room).trim() || 'General'] *)
Definition normRoom (room0 : JsValue) : string :=
  orDefault (trim (toString room0)) "General".

Definition joinRoom (st : State) (sid : SocketId) (username0 room0 : JsValue)
  : State * list Action :=
  let uname := normUsername username0 in
  let rname := normRoom room0 in
  let clients' := <[sid := {| username := uname; room := rname |}]> (clients st) in
  let '(rooms1, r) := ensureRoom rname (rooms st) in
  let r' := {| users := jmap_set sid uname (users r); history := history r |} in
  let rooms2 := <[rname := r']> rooms1 in
  let hist := sliceLast 50 (history r') in
  ({| rooms := rooms2; clients := clients' |},
   [ Join sid rname;
     Emit (SocketTo sid rname) (System (uname +:+ " has joined the room"));
     Emit (IoTo rname) (Users (jmap_values (users r')));
     Emit (SocketEmit sid) (Joined rname uname (jmap_values (users r')) hist) ]).

Definition leaveRoom (st : State) (sid : SocketId) : State * list Action :=
  match clients st !! sid with
  | None => (st, [])
  | Some info =>
      let uname := username info in
      let rname := room info in
      let '(rooms', acts) :=
        match rooms st !! rname with
        | Some r =>
            let r' := {| users := jmap_delete sid (users r); history := history r |} in
            (<[rname := r']> (rooms st),
             [ Leave sid rname;
               Emit (SocketEmit sid) (Left rname uname);
               Emit (SocketTo sid rname) (System (uname +:+ " has left the room"));
               Emit (IoTo rname) (Users (jmap_values (users r'))) ])
        | None => (rooms st, [])
        end in
      ({| rooms := rooms'; clients := delete sid (clients st) |}, acts)
  end.

(** [a.push(m); if (a.length > 200) a.shift();] *)
Definition pushLimited (a : list Message) (m : Message) : list Message :=
  let a1 := a ++ [m] in
  if decide (200 < length a1) then tail a1 else a1.

Definition chatMessage (st : State) (sid : SocketId) (now : Z) (text : JsValue)
  : State * list Action :=
  match clients st !! sid with
  | None => (st, [Emit (SocketEmit sid) (System "Please join a room first")])
  | Some info =>
      let uname := username info in
      let rname := room info in
      let ts := now in
      let msg := {| msg_username := uname;
                    msg_text := substring0 1000 (toString text);
                    msg_ts := ts |} in
      let '(rooms1, r) := ensureRoom rname (rooms st) in
      let r' := {| users := users r; history := pushLimited (history r) msg |} in
      ({| rooms := <[rname := r']> rooms1; clients := clients st |},
       [Emit (IoTo rname) (MessageEv msg)])
  end.

Definition typing (st : State) (sid : SocketId) : State * list Action :=
  match clients st !! sid with
  | None => (st, [])
  | Some info => (st, [Emit (IoTo (room info)) (TypingEv (username info))])
  end.

Definition stopTyping (st : State) (sid : SocketId) : State * list Action :=
  match clients st !! sid with
  | None => (st, [])
  | Some info => (st, [Emit (IoTo (room info)) StopTypingEv])
  end.

(** The loop over [r.users.entries()]: the first entry whose name is [to],
    [null] when there is none. *)
Fixpoint findTarget (to : JsValue) (m : list (SocketId * string)) : option SocketId :=
  match m with
  | [] => None
  | (sid, uname) :: m' => if strictEq uname to then Some sid else findTarget to m'
  end.

(** [!targetSocketId]: [null] and the empty string are falsy *)
Definition isFalsy (t : option SocketId) : bool :=
  match t with
  | None => true
  | Some EmptyString => true
  | Some _ => false
  end.

Definition privateMessage (st : State) (sid : SocketId) (now : Z)
    (to message : JsValue) : State * list Action :=
  match clients st !! sid with
  | None => (st, [Emit (SocketEmit sid) (System "Join a room first")])
  | Some info =>
      let from := username info in
      let rname := room info in
      match rooms st !! rname with
      | None => (st, [Emit (SocketEmit sid) (System "Room not found")])
      | Some r =>
          let targetSocketId := findTarget to (users r) in
          let ts := now in
          match targetSocketId with
          | Some target =>
              if isFalsy targetSocketId
              then (st, [Emit (SocketEmit sid)
                           (System ("User not found in room: " +:+ toString to))])
              else (st, [ Emit (IoTo target) (PrivateMessageEv from message ts);
                          Emit (SocketEmit sid)
                            (System ("Private message sent to " +:+ toString to)) ])
          | None =>
              (st, [Emit (SocketEmit sid)
                      (System ("User not found in room: " +:+ toString to))])
          end
      end
  end.

Definition disconnect (st : State) (sid : SocketId) : State * list Action :=
  match clients st !! sid with
  | Some info =>
      let uname := username info in
      let rname := room info in
      let '(rooms', acts) :=
        match rooms st !! rname with
        | Some r =>
            let r' := {| users := jmap_delete sid (users r); history := history r |} in
            (<[rname := r']> (rooms st),
             [ Emit (SocketTo sid rname) (System (uname +:+ " disconnected"));
               Emit (IoTo rname) (Users (jmap_values (users r'))) ])
        | None => (rooms st, [])
        end in
      ({| rooms := rooms'; clients := delete sid (clients st) |}, acts)
  | None => (st, [])
  end.

(** ** The event loop *)

Inductive Inbound :=
  | JoinRoom (username0 room0 : JsValue)
  | LeaveRoom
  | ChatMessage (text : JsValue)
  | Typing
  | StopTyping
  | PrivateMessage (to message : JsValue)
  | Disconnect.

(** An inbound event, the socket it arrives on and the clock at receipt. *)
Record Received := { on_socket : SocketId; at_time : Z; event : Inbound }.

Definition handle (st : State) (e : Received) : State * list Action :=
  match event e with
  | JoinRoom u r => joinRoom st (on_socket e) u r
  | LeaveRoom => leaveRoom st (on_socket e)
  | ChatMessage t => chatMessage st (on_socket e) (at_time e) t
  | Typing => typing st (on_socket e)
  | StopTyping => stopTyping st (on_socket e)
  | PrivateMessage to m => privateMessage st (on_socket e) (at_time e) to m
  | Disconnect => disconnect st (on_socket e)
  end.

(** The single-threaded loop: events are handled one after the other. *)
Fixpoint run (st : State) (es : list Received) : State * list Action :=
  match es with
  | [] => (st, [])
  | e :: es' =>
      let '(st1, acts1) := handle st e in
      let '(st2, acts2) := run st1 es' in
      (st2, acts1 ++ acts2)
  end.

(** ** Observations on states and on the calls made *)

(** The history stored for a room; a room that was never created has none. *)
Definition roomHistory (st : State) (rname : string) : list Message :=
  from_option history [] (rooms st !! rname).

(** The roster stored for a room. *)
Definition roomUsers (st : State) (rname : string) : list (SocketId * string) :=
  from_option users [] (rooms st !! rname).

(** The messages broadcast to a room by a list of calls, in order. *)
Fixpoint sentTo (rname : string) (acts : list Action) : list Message :=
  match acts with
  | [] => []
  | Emit (IoTo name) (MessageEv m) :: acts' =>
      if decide (name = rname) then m :: sentTo rname acts' else sentTo rname acts'
  | _ :: acts' => sentTo rname acts'
  end.

(** The sessions of the registry whose room is [rname]. *)
Definition sessionsIn (st : State) (rname : string) : list (SocketId * ClientInfo) :=
  filter (λ kv, room kv.2 = rname) (map_to_list (clients st)).

Definition sessionCount (st : State) (rname : string) : nat :=
  length (sessionsIn st rname).

Definition sessionNames (st : State) (rname : string) : list string :=
  (λ kv, username kv.2) <$> sessionsIn st rname.

(** A join that moves a connection holding a session to another room. *)
Definition switchesRoom (st : State) (e : Received) : bool :=
  match event e with
  | JoinRoom _ room0 =>
      match clients st !! on_socket e with
      | Some info => negb (bool_decide (room info = normRoom room0))
      | None => false
      end
  | _ => false
  end.

(** No event of the sequence, handled from [st] on, is such a join. *)
Fixpoint noSwitch (st : State) (es : list Received) : bool :=
  match es with
  | [] => true
  | e :: es' => negb (switchesRoom st e) && noSwitch (handle st e).1 es'
  end.

Definition allWhiteSpace (s : string) : Prop :=
  Forall (λ c, isWhiteSpace c = true) (list_ascii_of_string s).

(** ** Relations between the roster and the registry *)

(** Every session is on the roster of its room under its name, and a
    roster has one entry per connection. *)
Definition registryInRoster (st : State) : Prop :=
  (∀ sid info, clients st !! sid = Some info →
               jmap_get sid (roomUsers st (room info)) = Some (username info)) ∧
  (∀ rn, NoDup (roomUsers st rn).*1).

(** Every roster entry is the session of its connection. *)
Definition rosterInRegistry (st : State) : Prop :=
  ∀ rn sid u, jmap_get sid (roomUsers st rn) = Some u →
              clients st !! sid = Some {| username := u; room := rn |}.

(** ** Sample states and runs *)

(** The state after connection "a" joined room "General" as "alice" and
    connection "b" joined it as "bob". *)
Definition st_alice_bob : State :=
  (run init [ {| on_socket := "a"; at_time := 1;
                 event := JoinRoom (JsString "alice") (JsString "General") |};
              {| on_socket := "b"; at_time := 2;
                 event := JoinRoom (JsString "bob") (JsString "General") |} ]).1.

(** A state in which "a" has a session for a room that has no record. *)
Definition st_lost_room : State :=
  {| rooms := ∅;
     clients := {[ "a" := {| username := "alice"; room := "Lost" |} ]} |}.

(** [n] chat messages sent one after the other on socket [sid], the first
    at time [t]. *)
Fixpoint chatBurst (sid : SocketId) (n : nat) (t : Z) : list Received :=
  match n with
  | 0 => []
  | S n' =>
      {| on_socket := sid; at_time := t; event := ChatMessage (JsString "ping") |}
        :: chatBurst sid n' (t + 1)
  end.

(** "a" joins "General" as "alice" and sends 200 messages. *)
Definition es_full : list Received :=
  {| on_socket := "a"; at_time := 0;
     event := JoinRoom (JsString "alice") (JsString "General") |}
    :: chatBurst "a" 200 1.


(** "a" joins "General" as "alice", "b" joins it as "bob", "a" sends a
    message, re-joins under another name, and "b" leaves. *)
Definition es_steady : list Received :=
  [ {| on_socket := "a"; at_time := 1;
       event := JoinRoom (JsString "alice") (JsString "General") |};
    {| on_socket := "b"; at_time := 2;
       event := JoinRoom (JsString "bob") (JsString " General ") |};
    {| on_socket := "a"; at_time := 3; event := ChatMessage (JsString "hi") |};
    {| on_socket := "a"; at_time := 4;
       event := JoinRoom (JsString "alice2") (JsString "General") |};
    {| on_socket := "b"; at_time := 5; event := LeaveRoom |} ].

(** "a" joins "R1" and then, without leaving, "R2". *)
Definition es_switch : list Received :=
  [ {| on_socket := "a"; at_time := 1;
       event := JoinRoom (JsString "alice") (JsString "R1") |};
    {| on_socket := "a"; at_time := 2;
       event := JoinRoom (JsString "alice") (JsString "R2") |} ].

(** ** Socket.IO rooms, as the calls made determine them *)

(** The effect of one call on whether socket [sid] is in the Socket.IO
    room [name]: [socket.join] puts it there, [socket.leave] takes it out. *)
Definition subscribeStep (sid : SocketId) (name : string) (b : bool) (a : Action)
  : bool :=
  match a with
  | Join s n => if decide (s = sid ∧ n = name) then true else b
  | Leave s n => if decide (s = sid ∧ n = name) then false else b
  | Emit _ _ => b
  end.

(** Whether socket [sid] is in room [name] after the calls [acts], made
    since the socket connected. *)
Definition subscribed (sid : SocketId) (name : string) (acts : list Action) : bool :=
  foldl (subscribeStep sid name) false acts.

(** ** The bundled client (the script of [indexHtml]) *)

Definition dquote : ascii := ascii_of_nat 34.

(** The replacement table of [escapeHtml] *)
Definition escapeChar (c : ascii) : string :=
  if Ascii.eqb c "&" then "&amp;"
  else if Ascii.eqb c "<" then "&lt;"
  else if Ascii.eqb c ">" then "&gt;"
  else if Ascii.eqb c dquote then "&quot;"
  else if Ascii.eqb c "'" then "&#39;"
  else if Ascii.eqb c "`" then "&#x60;"
  else String c EmptyString.

(** [String.prototype.replace] with the global pattern matching one of the
    six characters of the table and the table as replacement *)
Fixpoint escapeString (s : string) : string :=
  match s with
  | EmptyString => EmptyString
  | String c s' => escapeChar c +:+ escapeString s'
  end.

(** [escapeHtml(s)] *)
Definition escapeHtml (v : JsValue) : string := escapeString (toString v).

(** [s.split(sep)] for a separator of one character *)
Fixpoint split (sep : ascii) (s : string) : list string :=
  match s with
  | EmptyString => [EmptyString]
  | String c s' =>
      if Ascii.eqb c sep then EmptyString :: split sep s'
      else match split sep s' with
           | h :: t => String c h :: t
           | [] => [String c EmptyString]
           end
  end.

(** [parts.join(sep)] *)
Fixpoint join (sep : string) (parts : list string) : string :=
  match parts with
  | [] => EmptyString
  | [p] => p
  | p :: rest => p +:+ sep +:+ join sep rest
  end.

(** [s.startsWith(p)] *)
Fixpoint startsWith (p s : string) : bool :=
  match p, s with
  | EmptyString, _ => true
  | String a p', String b s' => Ascii.eqb a b && startsWith p' s'
  | String _ _, EmptyString => false
  end.

(** [parts[i]]: [undefined] past the end *)
Definition arrayGet (parts : list string) (i : nat) : JsValue :=
  match parts !! i with
  | Some s => JsString s
  | None => JsUndefined
  end.

(** What the client does: the events it sends to the server and its
    effects on the page. *)
Inductive ClientAction :=
  | SocketSend (e : Inbound)      (* socket.emit(..) *)
  | AddMessage (html : string)    (* addMessage(html) *)
  | Alert (txt : string)          (* alert(txt) *)
  | ClearInput.                   (* msgInput.value = '' *)

(** The click handler of [joinBtn], given the values of the two inputs. *)
Definition clickJoin (usernameValue roomValue : string) : list ClientAction :=
  let name := trim usernameValue in
  match name with
  | EmptyString => [Alert "Please enter a username"]
  | _ => [SocketSend (JoinRoom (JsString name) (JsString roomValue))]
  end.

(** [sendMessage()], given the value of [msgInput]. *)
Definition sendMessage (value : string) : list ClientAction :=
  let text := trim value in
  match text with
  | EmptyString => []
  | _ =>
      (if startsWith "/pm " text
       then
         let parts := split " " text in
         let to := arrayGet parts 1 in
         let body := join " " (drop 2 parts) in
         [ SocketSend (PrivateMessage to (JsString body));
           AddMessage
             ("<span class=" +:+ String dquote "pm" +:+ String dquote "><strong>To "
                +:+ escapeHtml to +:+ " (private):</strong> "
                +:+ escapeHtml (JsString body) +:+ "</span>") ]
       else [SocketSend (ChatMessage (JsString text))])
      ++ [ClearInput; SocketSend StopTyping]
  end.

(** ** Bounds on what is stored *)

Definition nameOk (s : string) : Prop := 1 ≤ String.length s ≤ 32.

Definition messageOk (m : Message) : Prop :=
  nameOk (msg_username m) ∧ String.length (msg_text m) ≤ 1000.

(** The sessions, the rosters and the histories hold names of 1 to 32
    characters, room names that are not empty and texts of at most 1000
    characters. *)
Definition boundedState (st : State) : Prop :=
  (∀ sid info, clients st !! sid = Some info →
               nameOk (username info) ∧ room info ≠ EmptyString) ∧
  (∀ rn sid u, jmap_get sid (roomUsers st rn) = Some u → nameOk u) ∧
  (∀ rn m, m ∈ roomHistory st rn → messageOk m).

(** The characters with a meaning in HTML text and attribute values that
    [escapeHtml] is there to remove, and the six characters of its table. *)
Definition htmlActive (c : ascii) : bool :=
  Ascii.eqb c "<" || Ascii.eqb c ">" || Ascii.eqb c dquote
  || Ascii.eqb c "'" || Ascii.eqb c "`".

Definition inEscapeTable (c : ascii) : bool := Ascii.eqb c "&" || htmlActive c.

(** The state after "a" and "b" joined "General" and "a" sent "hi". *)
Definition st_hi : State :=
  (chatMessage st_alice_bob "a" 3 (JsString "hi")).1.

(** "a" joins "General" as "alice", "b" joins it as "bob", and "c" joins,
    as "eve", a room whose name is the id of the socket of "b". *)
Definition es_eaves : list Received :=
  [ {| on_socket := "a"; at_time := 1;
       event := JoinRoom (JsString "alice") (JsString "General") |};
    {| on_socket := "b"; at_time := 2;
       event := JoinRoom (JsString "bob") (JsString "General") |};
    {| on_socket := "c"; at_time := 3;
       event := JoinRoom (JsString "eve") (JsString "b") |} ].

(** * Properties *)

(** ** String primitives *)

Lemma substring0_length n s :
  String.length (substring0 n s) = n `min` String.length s.
Proof.
  unfold substring0. revert s.
  induction n as [|n IH]; intros [|c s]; simpl; auto.
Qed.

Lemma append_cons c s t : String c s +:+ t = String c (s +:+ t).
Proof. reflexivity. Qed.

Lemma append_empty_l t : EmptyString +:+ t = t.
Proof. reflexivity. Qed.

Lemma substring0_prefix n s : ∃ rest, s = substring0 n s +:+ rest.
Proof.
  unfold substring0. revert s. induction n as [|n IH]; intros s.
  - exists s. by destruct s.
  - destruct s as [|c s]; simpl.
    + by exists EmptyString.
    + destruct (IH s) as [rest Hrest]. exists rest.
      rewrite append_cons. by f_equal.
Qed.

Lemma substring0_short n s : String.length s ≤ n → substring0 n s = s.
Proof.
  unfold substring0. revert s.
  induction n as [|n IH]; intros [|c s]; simpl; intros Hlen; try done; try lia.
  f_equal. apply IH. lia.
Qed.

Lemma orDefault_nonempty s d : d ≠ EmptyString → orDefault s d ≠ EmptyString.
Proof. by destruct s. Qed.

Lemma orDefault_spec s d :
  (s = EmptyString ∧ orDefault s d = d) ∨ (s ≠ EmptyString ∧ orDefault s d = s).
Proof. destruct s; [by left | by right]. Qed.

Lemma trimStart_spec s :
  ∃ l, s = l +:+ trimStart s ∧ allWhiteSpace l ∧
       match trimStart s with
       | EmptyString => True
       | String c _ => isWhiteSpace c = false
       end.
Proof.
  induction s as [|c s IH]; simpl.
  - exists EmptyString. split_and!; [done | constructor | done].
  - destruct (isWhiteSpace c) eqn:Hc.
    + destruct IH as (l & Hs & Hl & Hhd). exists (String c l). split_and!.
      * rewrite append_cons. by f_equal.
      * by constructor.
      * done.
    + exists EmptyString. split_and!; [done | constructor | done].
Qed.

Lemma trimEnd_spec s :
  ∃ r, s = trimEnd s +:+ r ∧ allWhiteSpace r.
Proof.
  induction s as [|c s IH]; simpl.
  - exists EmptyString. split; [done | constructor].
  - destruct IH as (r & Hs & Hr).
    destruct (trimEnd s) as [|c' t] eqn:Ht.
    + destruct (isWhiteSpace c) eqn:Hc.
      * exists (String c r). rewrite append_empty_l in *.
        split; [by f_equal | by constructor].
      * exists r. rewrite append_cons. split; [by f_equal | done].
    + exists r. rewrite append_cons. split; [by f_equal | done].
Qed.

(** [trim] removes a run of white space at each end and nothing else. *)
Lemma trim_spec s :
  ∃ l r, s = l +:+ trim s +:+ r ∧ allWhiteSpace l ∧ allWhiteSpace r.
Proof.
  destruct (trimStart_spec s) as (l & Hs & Hl & _).
  destruct (trimEnd_spec (trimStart s)) as (r & Ht & Hr).
  exists l, r. split_and!; try done. unfold trim. by rewrite <- Ht.
Qed.

Lemma trimEnd_head s :
  match s with
  | EmptyString => True
  | String c _ =>
      isWhiteSpace c = false →
      match trimEnd s with EmptyString => False | String c' _ => c' = c end
  end.
Proof.
  destruct s as [|c s]; [done|]. intros Hc. simpl.
  destruct (trimEnd s); [by rewrite Hc | done].
Qed.

(** The first character of a trimmed string is not white space. *)
Lemma trim_head s :
  match trim s with
  | EmptyString => True
  | String c _ => isWhiteSpace c = false
  end.
Proof.
  unfold trim. destruct (trimStart_spec s) as (_ & _ & _ & Hhd).
  pose proof (trimEnd_head (trimStart s)) as Hend.
  destruct (trimStart s) as [|c t]; [done|].
  specialize (Hend Hhd). destruct (trimEnd (String c t)); [done|by subst].
Qed.

Lemma normUsername_length u :
  1 ≤ String.length (normUsername u) ≤ 32.
Proof.
  unfold normUsername.
  destruct (orDefault_spec (substring0 32 (trim (toString u))) "Anonymous")
    as [[_ ->]|[Hne ->]].
  - simpl. lia.
  - rewrite substring0_length. split; [|lia].
    pose proof (substring0_length 32 (trim (toString u))) as Hlen.
    destruct (substring0 32 (trim (toString u))); [done|].
    rewrite <- Hlen. simpl. lia.
Qed.

Lemma normRoom_nonempty r : normRoom r ≠ EmptyString.
Proof. by apply orDefault_nonempty. Qed.

Lemma trimStart_allWhiteSpace s : allWhiteSpace s → trimStart s = EmptyString.
Proof.
  unfold allWhiteSpace. induction s as [|c s IH]; simpl; [done|].
  intros Hall. inversion Hall as [|? ? Hc Hs]; subst. rewrite Hc. by apply IH.
Qed.

(** ** Arrays *)

Lemma sliceLast_length {A} n (a : list A) :
  length (sliceLast n a) = n `min` length a.
Proof. unfold sliceLast. rewrite length_skipn. lia. Qed.

Lemma sliceLast_suffix {A} n (a : list A) : sliceLast n a `suffix_of` a.
Proof. apply suffix_drop. Qed.

Lemma sliceLast_all {A} n (a : list A) : length a ≤ n → sliceLast n a = a.
Proof. unfold sliceLast. intros Hle. by replace (length a - n) with 0 by lia. Qed.

Lemma sliceLast_snoc {A} n (a : list A) x :
  sliceLast (S n) (a ++ [x]) = sliceLast n a ++ [x].
Proof.
  unfold sliceLast. rewrite length_app. simpl.
  replace (length a + 1 - S n) with (length a - n) by lia.
  rewrite skipn_app.
  replace (length a - n - length a) with 0 by lia. done.
Qed.

Lemma sliceLast_sliceLast {A} n k (a : list A) :
  n ≤ k → sliceLast n (sliceLast k a) = sliceLast n a.
Proof.
  intros Hnk. unfold sliceLast. rewrite length_skipn.
  change (@skipn A) with (@drop A). rewrite drop_drop. f_equal. lia.
Qed.

Lemma tail_skipn {A} n (l : list A) : tail (skipn n l) = skipn (S n) l.
Proof.
  revert n. induction l as [|x l IH]; intros [|n]; simpl; done.
Qed.

Lemma pushLimited_last a m : last (pushLimited a m) = Some m.
Proof.
  unfold pushLimited. cbv zeta. case_decide as Hlen.
  - destruct a as [|x a]; simpl in *; [lia|]. apply last_snoc.
  - apply last_snoc.
Qed.

(** Pushing onto a full history drops its first entry and no other. *)
Lemma pushLimited_full a m :
  length a = 200 → pushLimited a m = tail a ++ [m].
Proof.
  intros Hlen. unfold pushLimited. cbv zeta.
  rewrite decide_True by (rewrite length_app, Hlen; simpl; lia).
  by destruct a.
Qed.

Lemma pushLimited_room a m :
  length a < 200 → pushLimited a m = a ++ [m].
Proof.
  intros Hlen. unfold pushLimited. cbv zeta.
  by rewrite decide_False by (rewrite length_app; simpl; lia).
Qed.

(** A history kept with [pushLimited] is the last 200 of what was pushed. *)
Lemma pushLimited_sliceLast (log : list Message) m :
  pushLimited (sliceLast 200 log) m = sliceLast 200 (log ++ [m]).
Proof.
  destruct (decide (length log < 200)) as [Hlt|Hge].
  - rewrite (sliceLast_all 200 log) by lia.
    rewrite pushLimited_room by done.
    rewrite sliceLast_all; [done|]. rewrite length_app. simpl. lia.
  - rewrite pushLimited_full by (rewrite sliceLast_length; lia).
    rewrite (sliceLast_snoc 199). f_equal.
    unfold sliceLast. rewrite tail_skipn. f_equal. lia.
Qed.

(** ** The roster as a JavaScript [Map] *)

Section JsMapFacts.
Context {K V : Type} `{EqDecision K}.
Implicit Types (m : list (K * V)) (k : K) (v : V).

Lemma jmap_get_set k v k' m :
  jmap_get k' (jmap_set k v m) = if decide (k = k') then Some v else jmap_get k' m.
Proof.
  induction m as [|[k0 v0] m IH]; simpl.
  - repeat case_decide; congruence.
  - repeat (case_decide; simpl); try congruence.
Qed.

Lemma jmap_get_delete k k' m :
  jmap_get k' (jmap_delete k m) = if decide (k = k') then None else jmap_get k' m.
Proof.
  induction m as [|[k0 v0] m IH]; simpl.
  - by case_decide.
  - repeat (case_decide; simpl); try congruence.
Qed.

Lemma jmap_get_None k m : jmap_get k m = None ↔ k ∉ m.*1.
Proof.
  induction m as [|[k0 v0] m IH]; simpl.
  - split; [intros _; apply not_elem_of_nil | done].
  - rewrite not_elem_of_cons, <- IH. case_decide as Hk.
    + split; [done|]. intros [? _]. congruence.
    + split; [intros ?; split; congruence | by intros [_ ?]].
Qed.

Lemma jmap_get_elem_of k v m : jmap_get k m = Some v → (k, v) ∈ m.
Proof.
  induction m as [|[k0 v0] m IH]; simpl; [done|].
  case_decide; intros Hget.
  - simplify_eq. apply elem_of_cons. by left.
  - apply elem_of_cons. right. by apply IH.
Qed.

Lemma jmap_elem_of_get k v m : NoDup m.*1 → (k, v) ∈ m → jmap_get k m = Some v.
Proof.
  induction m as [|[k0 v0] m IH]; simpl; intros Hnd Hin.
  - by apply elem_of_nil in Hin.
  - apply NoDup_cons in Hnd as [Hfresh Hnd].
    apply elem_of_cons in Hin as [Heq|Hin].
    + simplify_eq. by rewrite decide_True.
    + case_decide as Hk; [|by apply IH]. subst k0.
      exfalso. apply Hfresh. apply list_elem_of_fmap. by exists (k, v).
Qed.

Lemma jmap_set_keys k v m :
  (jmap_set k v m).*1 = if decide (k ∈ m.*1) then m.*1 else m.*1 ++ [k].
Proof.
  induction m as [|[k0 v0] m IH]; [done|].
  simpl jmap_set. rewrite (fmap_cons fst (k0, v0) m). simpl fst.
  destruct (decide (k0 = k)) as [->|Hk].
  - rewrite fmap_cons. simpl fst.
    by rewrite decide_True by (apply elem_of_cons; by left).
  - rewrite fmap_cons, IH. simpl fst.
    destruct (decide (k ∈ m.*1)) as [Hin|Hin].
    + by rewrite decide_True by (apply elem_of_cons; by right).
    + rewrite decide_False; [done|]. rewrite elem_of_cons.
      intros [?|?]; [congruence|done].
Qed.

Lemma jmap_set_NoDup k v m : NoDup m.*1 → NoDup (jmap_set k v m).*1.
Proof.
  intros Hnd. rewrite jmap_set_keys. case_decide as Hin; [done|].
  apply NoDup_app. split_and!; [done | | apply NoDup_singleton].
  intros x Hx Hx'. apply list_elem_of_singleton in Hx'. by subst.
Qed.

Lemma jmap_delete_NoDup k m : NoDup m.*1 → NoDup (jmap_delete k m).*1.
Proof.
  induction m as [|[k0 v0] m IH]; simpl; [done|].
  intros [Hfresh Hnd]%NoDup_cons. case_decide; simpl; [by apply IH|].
  apply NoDup_cons. split; [|by apply IH].
  intros Hin. apply Hfresh. apply jmap_get_None in Hfresh.
  destruct (jmap_get k0 (jmap_delete k m)) as [v|] eqn:Hget.
  - rewrite jmap_get_delete in Hget. case_decide; congruence.
  - by apply jmap_get_None in Hget.
Qed.
End JsMapFacts.

(** ** joinRoom: the stored session *)

Lemma joinRoom_session st sid u r :
  clients (joinRoom st sid u r).1 !! sid =
    Some {| username := normUsername u; room := normRoom r |}.
Proof.
  unfold joinRoom. destruct (ensureRoom _ _) as [rooms1 r1]. simpl.
  apply lookup_insert_eq.
Qed.

(** For a string [username], the stored name is the trimmed input cut to
    32 characters, or "Anonymous" when that is empty; it has between 1
    and 32 characters. *)
Lemma joinRoom_username_string st sid s r info :
  clients (joinRoom st sid (JsString s) r).1 !! sid = Some info →
  username info = orDefault (substring0 32 (trim s)) "Anonymous" ∧
  1 ≤ String.length (username info) ≤ 32.
Proof.
  rewrite joinRoom_session. intros [= <-]. simpl. split; [done|].
  apply (normUsername_length (JsString s)).
Qed.

(** For a string [room], the stored room is the trimmed input, or
    "General" when that is empty. *)
Lemma joinRoom_room_string st sid u s info :
  clients (joinRoom st sid u (JsString s)).1 !! sid = Some info →
  room info = orDefault (trim s) "General" ∧
  (allWhiteSpace s → room info = "General").
Proof.
  rewrite joinRoom_session. intros [= <-]. simpl. split; [done|].
  intros Hs. unfold normRoom, trim. simpl. by rewrite trimStart_allWhiteSpace.
Qed.

(** C2 (the payload omits [room]).  [String(undefined)] is the text
    "undefined", which is not empty, so the room stored for a join whose
    payload has no [room] field is "undefined" and not "General". *)
Theorem joinRoom_room_absent st sid u :
  clients (joinRoom st sid u JsUndefined).1 !! sid =
    Some {| username := normUsername u; room := "undefined" |} ∧
  normRoom JsUndefined ≠ "General".
Proof. split; [apply joinRoom_session | done]. Qed.

(** ** chatMessage and leaveRoom before joining *)

(** C6.  A [chatMessage] from a connection without a session sends the
    notice "Please join a room first" to the sender's socket and nothing
    else; the state (registry, rosters, histories) is the one before, and
    no message is broadcast to any room. *)
Theorem chatMessage_unjoined st sid now text :
  clients st !! sid = None →
  chatMessage st sid now text =
    (st, [Emit (SocketEmit sid) (System "Please join a room first")]) ∧
  (∀ t m, Emit t (MessageEv m) ∉ (chatMessage st sid now text).2) ∧
  (∀ rname, roomHistory (chatMessage st sid now text).1 rname = roomHistory st rname).
Proof.
  intros Hnone. unfold chatMessage. rewrite Hnone. simpl. split_and!; [done| |done].
  intros t m Hin. apply list_elem_of_singleton in Hin. discriminate.
Qed.

Lemma chatMessage_unjoined_witness :
  chatMessage init "c" 7 (JsString "x") =
    (init, [Emit (SocketEmit "c") (System "Please join a room first")]).
Proof. apply (chatMessage_unjoined init "c" 7 (JsString "x")). reflexivity. Defined.

(** C8.  A [leaveRoom] from a connection without a session makes no call
    into Socket.IO and leaves the state as it is; repeating it changes
    nothing. *)
Theorem leaveRoom_unjoined st sid :
  clients st !! sid = None →
  leaveRoom st sid = (st, []) ∧
  leaveRoom (leaveRoom st sid).1 sid = (st, []).
Proof.
  intros Hnone. assert (leaveRoom st sid = (st, [])) as Heq.
  { unfold leaveRoom. by rewrite Hnone. }
  by rewrite !Heq.
Qed.

Lemma leaveRoom_unjoined_witness : leaveRoom init "c" = (init, []).
Proof. apply (leaveRoom_unjoined init "c"). reflexivity. Defined.

(** A second [leaveRoom] is a no-op whatever the first one did. *)
Lemma leaveRoom_twice st sid :
  leaveRoom (leaveRoom st sid).1 sid = ((leaveRoom st sid).1, []).
Proof.
  assert (clients (leaveRoom st sid).1 !! sid = None) as Hnone.
  { unfold leaveRoom. destruct (clients st !! sid) as [info|] eqn:Hc; [|done].
    destruct (rooms st !! room info); simpl; apply lookup_delete_eq. }
  unfold leaveRoom at 1. by rewrite Hnone.
Qed.

(** ** chatMessage after joining *)

Lemma ensureRoom_lookup name rs :
  (ensureRoom name rs).1 !! name = Some (ensureRoom name rs).2.
Proof.
  unfold ensureRoom. destruct (rs !! name) eqn:Hr; simpl; [done|].
  apply lookup_insert_eq.
Qed.

Lemma ensureRoom_history name rs :
  history (ensureRoom name rs).2 = from_option history [] (rs !! name).
Proof. unfold ensureRoom. by destruct (rs !! name). Qed.

Lemma ensureRoom_users name rs :
  users (ensureRoom name rs).2 = from_option users [] (rs !! name).
Proof. unfold ensureRoom. by destruct (rs !! name). Qed.

Lemma ensureRoom_other name name' rs :
  name ≠ name' → (ensureRoom name rs).1 !! name' = rs !! name'.
Proof.
  intros Hne. unfold ensureRoom. destruct (rs !! name); simpl; [done|].
  by apply lookup_insert_ne.
Qed.

(** What [chatMessage] does for a connection that has a session. *)
Lemma chatMessage_joined st sid now text info :
  clients st !! sid = Some info →
  let msg := {| msg_username := username info;
                msg_text := substring0 1000 (toString text);
                msg_ts := now |} in
  (chatMessage st sid now text).2 = [Emit (IoTo (room info)) (MessageEv msg)] ∧
  clients (chatMessage st sid now text).1 = clients st ∧
  rooms (chatMessage st sid now text).1 !! room info =
    Some {| users := roomUsers st (room info);
            history := pushLimited (roomHistory st (room info)) msg |} ∧
  (∀ rname, rname ≠ room info →
            rooms (chatMessage st sid now text).1 !! rname = rooms st !! rname).
Proof.
  intros Hinfo msg. unfold chatMessage. rewrite Hinfo.
  pose proof (ensureRoom_history (room info) (rooms st)) as Hh.
  pose proof (ensureRoom_users (room info) (rooms st)) as Hu.
  pose proof (λ n, ensureRoom_other (room info) n (rooms st)) as Ho.
  destruct (ensureRoom (room info) (rooms st)) as [rooms1 r]. simpl in *.
  split_and!; try done.
  - rewrite lookup_insert_eq. unfold roomUsers, roomHistory. by rewrite Hh, Hu.
  - intros rname Hne. rewrite lookup_insert_ne by done. apply Ho. congruence.
Qed.

(** C9.  For a connection with a session, [chatMessage] never answers
    "Room not found"; when the room of the session has no record, the
    handler creates one with an empty roster and an empty history and then
    appends the message to it, whereas [privateMessage] in that state sends
    the sender the notice "Room not found" and changes nothing. *)
Theorem chatMessage_creates_room st sid now text to message info :
  clients st !! sid = Some info →
  let msg := {| msg_username := username info;
                msg_text := substring0 1000 (toString text);
                msg_ts := now |} in
  (∀ t, Emit t (System "Room not found") ∉ (chatMessage st sid now text).2) ∧
  (rooms st !! room info = None →
   ensureRoom (room info) (rooms st) =
     (<[room info := {| users := []; history := [] |}]> (rooms st),
      {| users := []; history := [] |}) ∧
   rooms (chatMessage st sid now text).1 !! room info =
     Some {| users := []; history := [msg] |} ∧
   (chatMessage st sid now text).2 = [Emit (IoTo (room info)) (MessageEv msg)] ∧
   privateMessage st sid now to message =
     (st, [Emit (SocketEmit sid) (System "Room not found")])).
Proof.
  intros Hinfo msg.
  destruct (chatMessage_joined st sid now text info Hinfo) as (Hacts & _ & Hroom & _).
  split.
  - intros t Hin. rewrite Hacts in Hin. apply list_elem_of_singleton in Hin.
    discriminate.
  - intros Hnone. split_and!.
    + unfold ensureRoom. by rewrite Hnone.
    + rewrite Hroom. unfold roomUsers, roomHistory. by rewrite Hnone.
    + done.
    + unfold privateMessage. by rewrite Hinfo, Hnone.
Qed.

Lemma chatMessage_creates_room_witness :
  rooms (chatMessage st_lost_room "a" 5 (JsString "hi")).1 !! "Lost" =
    Some {| users := [];
            history := [{| msg_username := "alice"; msg_text := "hi"; msg_ts := 5 |}] |} ∧
  privateMessage st_lost_room "a" 5 (JsString "bob") (JsString "secret") =
    (st_lost_room, [Emit (SocketEmit "a") (System "Room not found")]).
Proof.
  destruct (chatMessage_creates_room st_lost_room "a" 5 (JsString "hi")
              (JsString "bob") (JsString "secret")
              {| username := "alice"; room := "Lost" |}) as [_ Hlost].
  - vm_compute. reflexivity.
  - destruct Hlost as (_ & Hroom & _ & Hpm).
    + vm_compute. reflexivity.
    + split; [exact Hroom | exact Hpm].
Defined.

(** ** privateMessage *)

Lemma findTarget_first to m target :
  findTarget to m = Some target →
  ∃ pre name post,
    m = pre ++ (target, name) :: post ∧ to = JsString name ∧
    name ∉ jmap_values pre.
Proof.
  induction m as [|[s u] m IH]; simpl; [done|].
  destruct (strictEq u to) eqn:Heq.
  - intros [= ->]. exists [], u, m. split_and!; [done | | apply not_elem_of_nil].
    destruct to; try done. simpl in Heq. apply bool_decide_eq_true in Heq. by subst.
  - intros Hfind. destruct (IH Hfind) as (pre & name & post & -> & -> & Hpre).
    exists ((s, u) :: pre), name, post. split_and!; [done..|].
    unfold jmap_values in *. rewrite fmap_cons, not_elem_of_cons. split; [|done].
    simpl. simpl in Heq. apply bool_decide_eq_false in Heq. congruence.
Qed.

Lemma findTarget_found name m :
  name ∈ jmap_values m → is_Some (findTarget (JsString name) m).
Proof.
  unfold jmap_values. induction m as [|[s u] m IH]; simpl.
  - intros Hin. by apply elem_of_nil in Hin.
  - intros Hin. destruct (bool_decide (u = name)) eqn:Heq; [by eexists|].
    apply IH. apply elem_of_cons in Hin as [Hin|Hin]; [|done].
    apply bool_decide_eq_false in Heq. simpl in Hin. congruence.
Qed.

(** The calls of a successful [privateMessage].  When the sender has a
    session, the room of the session has a
    record and its roster has a member named [name], a [privateMessage]
    addressed to [name] resolves the first roster entry with that name,
    emits the private message (sender's name, body, clock) with
    [io.to] on the id of that entry and on no other target, sends the
    sender the notice "Private message sent to <name>", and leaves the
    state, histories included, as it was.  Connection ids are the
    non-empty strings Socket.IO generates. *)
Theorem privateMessage_delivers st sid now name message info r :
  clients st !! sid = Some info →
  rooms st !! room info = Some r →
  name ∈ jmap_values (users r) →
  (∀ s u, (s, u) ∈ users r → s ≠ EmptyString) →
  ∃ pre target post,
    users r = pre ++ (target, name) :: post ∧
    (name ∉ jmap_values pre) ∧
    privateMessage st sid now (JsString name) message =
      (st, [ Emit (IoTo target) (PrivateMessageEv (username info) message now);
             Emit (SocketEmit sid) (System ("Private message sent to " +:+ name)) ]).
Proof.
  intros Hinfo Hroom Hname Hids.
  destruct (findTarget_found name (users r) Hname) as [target Hfind].
  destruct (findTarget_first _ _ _ Hfind) as (pre & name' & post & Hr & [= <-] & Hpre).
  exists pre, target, post. split_and!; [done..|].
  unfold privateMessage. rewrite Hinfo, Hroom, Hfind.
  assert (target ≠ EmptyString) as Hne.
  { apply (Hids target name). rewrite Hr. apply elem_of_app. right.
    apply elem_of_cons. by left. }
  by destruct target.
Qed.

Lemma privateMessage_delivers_witness :
  ∃ pre target post,
    [("a", "alice"); ("b", "bob")] = pre ++ (target, "bob") :: post ∧
    ("bob" ∉ jmap_values pre) ∧
    privateMessage st_alice_bob "a" 9 (JsString "bob") (JsString "secret") =
      (st_alice_bob,
       [ Emit (IoTo target) (PrivateMessageEv "alice" (JsString "secret") 9);
         Emit (SocketEmit "a") (System "Private message sent to bob") ]).
Proof.
  apply (privateMessage_delivers st_alice_bob "a" 9 "bob" (JsString "secret")
           {| username := "alice"; room := "General" |}
           {| users := [("a", "alice"); ("b", "bob")]; history := [] |}).
  - vm_compute. reflexivity.
  - vm_compute. reflexivity.
  - apply elem_of_cons. right. apply elem_of_cons. by left.
  - intros s u Hin. simpl in Hin.
    apply elem_of_cons in Hin as [[= -> ->]|Hin]; [done|].
    apply elem_of_cons in Hin as [[= -> ->]|Hin]; [done|].
    by apply elem_of_nil in Hin.
Defined.

(** ** What one handler call changes *)

Lemma joinRoom_effect st sid u r :
  clients (joinRoom st sid u r).1 =
    <[sid := {| username := normUsername u; room := normRoom r |}]> (clients st) ∧
  (∀ rn, roomUsers (joinRoom st sid u r).1 rn =
         if decide (rn = normRoom r)
         then jmap_set sid (normUsername u) (roomUsers st rn)
         else roomUsers st rn) ∧
  (∀ rn, roomHistory (joinRoom st sid u r).1 rn = roomHistory st rn) ∧
  (joinRoom st sid u r).2 =
    [ Join sid (normRoom r);
      Emit (SocketTo sid (normRoom r))
        (System (normUsername u +:+ " has joined the room"));
      Emit (IoTo (normRoom r))
        (Users (jmap_values (roomUsers (joinRoom st sid u r).1 (normRoom r))));
      Emit (SocketEmit sid)
        (Joined (normRoom r) (normUsername u)
           (jmap_values (roomUsers (joinRoom st sid u r).1 (normRoom r)))
           (sliceLast 50 (roomHistory st (normRoom r)))) ].
Proof.
  unfold joinRoom, roomUsers, roomHistory.
  pose proof (ensureRoom_history (normRoom r) (rooms st)) as Hh.
  pose proof (ensureRoom_users (normRoom r) (rooms st)) as Hu.
  pose proof (λ n, ensureRoom_other (normRoom r) n (rooms st)) as Ho.
  destruct (ensureRoom (normRoom r) (rooms st)) as [rooms1 r1]. simpl in *.
  split_and!.
  - done.
  - intros rn. case_decide as Hrn.
    + subst rn. rewrite lookup_insert_eq. simpl. by rewrite Hu.
    + rewrite lookup_insert_ne by done. rewrite Ho by done. done.
  - intros rn. destruct (decide (rn = normRoom r)) as [->|Hrn].
    + rewrite lookup_insert_eq. simpl. by rewrite Hh.
    + rewrite lookup_insert_ne by done. rewrite Ho by done. done.
  - rewrite lookup_insert_eq. simpl. by rewrite Hh.
Qed.

(** [leaveRoom] and [disconnect] change the stores in the same way. *)
Lemma leaveRoom_effect st sid info :
  clients st !! sid = Some info →
  clients (leaveRoom st sid).1 = delete sid (clients st) ∧
  (∀ rn, roomUsers (leaveRoom st sid).1 rn =
         if decide (rn = room info)
         then jmap_delete sid (roomUsers st rn)
         else roomUsers st rn) ∧
  (∀ rn, roomHistory (leaveRoom st sid).1 rn = roomHistory st rn) ∧
  (∀ t names, Emit t (Users names) ∈ (leaveRoom st sid).2 →
              t = IoTo (room info) ∧
              names = jmap_values (roomUsers (leaveRoom st sid).1 (room info))) ∧
  (∀ rn, sentTo rn (leaveRoom st sid).2 = []).
Proof.
  intros Hinfo. unfold leaveRoom, roomUsers, roomHistory. rewrite Hinfo.
  destruct (rooms st !! room info) as [r|] eqn:Hr; simpl.
  - split_and!; [done|..].
    + intros rn. case_decide as Hrn.
      * subst rn. rewrite lookup_insert_eq, Hr. done.
      * by rewrite lookup_insert_ne.
    + intros rn. destruct (decide (rn = room info)) as [->|Hrn].
      * rewrite lookup_insert_eq, Hr. done.
      * by rewrite lookup_insert_ne.
    + intros t names Hin. rewrite lookup_insert_eq. simpl.
      repeat (apply elem_of_cons in Hin as [Hin|Hin]; [by simplify_eq|]).
      by apply elem_of_nil in Hin.
    + done.
  - split_and!; [done|..].
    + intros rn. case_decide as Hrn; [|done]. subst rn. by rewrite Hr.
    + done.
    + intros t names Hin. by apply elem_of_nil in Hin.
    + done.
Qed.

Lemma disconnect_effect st sid info :
  clients st !! sid = Some info →
  clients (disconnect st sid).1 = delete sid (clients st) ∧
  (∀ rn, roomUsers (disconnect st sid).1 rn =
         if decide (rn = room info)
         then jmap_delete sid (roomUsers st rn)
         else roomUsers st rn) ∧
  (∀ rn, roomHistory (disconnect st sid).1 rn = roomHistory st rn) ∧
  (∀ t names, Emit t (Users names) ∈ (disconnect st sid).2 →
              t = IoTo (room info) ∧
              names = jmap_values (roomUsers (disconnect st sid).1 (room info))) ∧
  (∀ rn, sentTo rn (disconnect st sid).2 = []).
Proof.
  intros Hinfo. unfold disconnect, roomUsers, roomHistory. rewrite Hinfo.
  destruct (rooms st !! room info) as [r|] eqn:Hr; simpl.
  - split_and!; [done|..].
    + intros rn. case_decide as Hrn.
      * subst rn. rewrite lookup_insert_eq, Hr. done.
      * by rewrite lookup_insert_ne.
    + intros rn. destruct (decide (rn = room info)) as [->|Hrn].
      * rewrite lookup_insert_eq, Hr. done.
      * by rewrite lookup_insert_ne.
    + intros t names Hin. rewrite lookup_insert_eq. simpl.
      repeat (apply elem_of_cons in Hin as [Hin|Hin]; [by simplify_eq|]).
      by apply elem_of_nil in Hin.
    + done.
  - split_and!; [done|..].
    + intros rn. case_decide as Hrn; [|done]. subst rn. by rewrite Hr.
    + done.
    + intros t names Hin. by apply elem_of_nil in Hin.
    + done.
Qed.

Lemma chatMessage_effect st sid now text info :
  clients st !! sid = Some info →
  clients (chatMessage st sid now text).1 = clients st ∧
  (∀ rn, roomUsers (chatMessage st sid now text).1 rn = roomUsers st rn).
Proof.
  intros Hinfo.
  destruct (chatMessage_joined st sid now text info Hinfo) as (_ & Hc & Hroom & Ho).
  split; [done|]. intros rn. unfold roomUsers at 1.
  destruct (decide (rn = room info)) as [->|Hrn].
  - by rewrite Hroom.
  - by rewrite Ho.
Qed.

(** [privateMessage] never changes the state and broadcasts no roster and
    no room message. *)
Lemma privateMessage_effect st sid now to message :
  (privateMessage st sid now to message).1 = st ∧
  (∀ t names, Emit t (Users names) ∉ (privateMessage st sid now to message).2) ∧
  (∀ rn, sentTo rn (privateMessage st sid now to message).2 = []).
Proof.
  unfold privateMessage.
  destruct (clients st !! sid) as [info|]; [|split_and!; [done| |done]].
  - destruct (rooms st !! room info) as [r|]; [|split_and!; [done| |done]].
    + destruct (findTarget to (users r)) as [target|]; [|split_and!; [done| |done]].
      * destruct (isFalsy (Some target)); (split_and!; [done| |done]).
        -- intros t names Hin. apply list_elem_of_singleton in Hin. discriminate.
        -- intros t names Hin.
           repeat (apply elem_of_cons in Hin as [Hin|Hin]; [discriminate|]).
           by apply elem_of_nil in Hin.
      * intros t names Hin. apply list_elem_of_singleton in Hin. discriminate.
    + intros t names Hin. apply list_elem_of_singleton in Hin. discriminate.
  - intros t names Hin. apply list_elem_of_singleton in Hin. discriminate.
Qed.

(** ** Runs of the event loop *)

Lemma run_cons st e es :
  run st (e :: es) =
    ((run (handle st e).1 es).1, (handle st e).2 ++ (run (handle st e).1 es).2).
Proof. simpl. destruct (handle st e) as [st1 a1]. simpl. by destruct (run st1 es). Qed.

Lemma run_app st es1 es2 :
  run st (es1 ++ es2) =
    ((run (run st es1).1 es2).1, (run st es1).2 ++ (run (run st es1).1 es2).2).
Proof.
  revert st. induction es1 as [|e es1 IH]; intros st.
  - simpl. by destruct (run st es2).
  - rewrite <- app_comm_cons, run_cons, (run_cons st e es1), IH. simpl.
    by rewrite app_assoc.
Qed.

Lemma run_snoc_state st es e :
  (run st (es ++ [e])).1 = (handle (run st es).1 e).1.
Proof. rewrite run_app. unfold fst at 1. by rewrite run_cons. Qed.

Lemma noSwitch_app st es1 es2 :
  noSwitch st (es1 ++ es2) = noSwitch st es1 && noSwitch (run st es1).1 es2.
Proof.
  revert st. induction es1 as [|e es1 IH]; intros st; [done|].
  rewrite <- app_comm_cons, (run_cons st e es1).
  change (noSwitch st (e :: es1 ++ es2))
    with (negb (switchesRoom st e) && noSwitch (handle st e).1 (es1 ++ es2)).
  change (noSwitch st (e :: es1))
    with (negb (switchesRoom st e) && noSwitch (handle st e).1 es1).
  rewrite IH. simpl. by rewrite andb_assoc.
Qed.

Lemma sentTo_app rn a b : sentTo rn (a ++ b) = sentTo rn a ++ sentTo rn b.
Proof.
  induction a as [|x a IH]; [done|]. simpl.
  destruct x as [| |[]]; try done. destruct e; try done.
  case_decide; [|done]. simpl. by f_equal.
Qed.

(** ** History retention *)

(** A handler changes a room's history only by pushing the messages it
    broadcasts to that room. *)
Lemma handle_history st e rn :
  roomHistory (handle st e).1 rn =
    foldl pushLimited (roomHistory st rn) (sentTo rn (handle st e).2).
Proof.
  unfold handle. destruct (event e) as [u r| |text| | |to message|].
  - destruct (joinRoom_effect st (on_socket e) u r) as (_ & _ & Hh & ->).
    rewrite Hh. simpl. done.
  - destruct (clients st !! on_socket e) as [info|] eqn:Hinfo.
    + destruct (leaveRoom_effect st _ info Hinfo) as (_ & _ & Hh & _ & ->).
      by rewrite Hh.
    + unfold leaveRoom. by rewrite Hinfo.
  - destruct (clients st !! on_socket e) as [info|] eqn:Hinfo.
    + destruct (chatMessage_joined st _ (at_time e) text info Hinfo)
        as (-> & _ & Hroom & Ho).
      simpl. unfold roomHistory at 1. destruct (decide (room info = rn)) as [<-|Hrn].
      * by rewrite Hroom.
      * by rewrite Ho.
    + unfold chatMessage. by rewrite Hinfo.
  - unfold typing. by destruct (clients st !! on_socket e).
  - unfold stopTyping. by destruct (clients st !! on_socket e).
  - destruct (privateMessage_effect st (on_socket e) (at_time e) to message)
      as (-> & _ & ->). done.
  - destruct (clients st !! on_socket e) as [info|] eqn:Hinfo.
    + destruct (disconnect_effect st _ info Hinfo) as (_ & _ & Hh & _ & ->).
      by rewrite Hh.
    + unfold disconnect. by rewrite Hinfo.
Qed.

Lemma run_history st es rn :
  roomHistory (run st es).1 rn =
    foldl pushLimited (roomHistory st rn) (sentTo rn (run st es).2).
Proof.
  revert st. induction es as [|e es IH]; intros st; [done|].
  rewrite run_cons. simpl. by rewrite IH, handle_history, sentTo_app, foldl_app.
Qed.

Lemma foldl_pushLimited log ms :
  foldl pushLimited (sliceLast 200 log) ms = sliceLast 200 (log ++ ms).
Proof.
  revert log. induction ms as [|m ms IH]; intros log; simpl.
  - by rewrite app_nil_r.
  - rewrite pushLimited_sliceLast, IH. by rewrite <- app_assoc.
Qed.

(** The history of a room is the last 200 of the messages broadcast to
    it since the server started. *)
Lemma history_is_recent_log es rn :
  roomHistory (run init es).1 rn = sliceLast 200 (sentTo rn (run init es).2).
Proof.
  rewrite run_history. unfold roomHistory at 1. simpl. rewrite lookup_empty.
  apply (foldl_pushLimited []).
Qed.

(** C3.  In every state the event loop reaches, the history of a room has
    at most 200 entries and is the run of the most recent messages
    broadcast to the room, in the order they were appended.  A
    [chatMessage] pushes its message onto the history of the sender's room;
    when that history holds 200 entries the result is the old history
    without its first entry, followed by the new message. *)
Theorem history_retention es rname :
  let st := (run init es).1 in
  roomHistory st rname = sliceLast 200 (sentTo rname (run init es).2) ∧
  length (roomHistory st rname) ≤ 200 ∧
  roomHistory st rname `suffix_of` sentTo rname (run init es).2 ∧
  (∀ sid now text info,
     clients st !! sid = Some info → room info = rname →
     let msg := {| msg_username := username info;
                   msg_text := substring0 1000 (toString text);
                   msg_ts := now |} in
     let st' := (chatMessage st sid now text).1 in
     sentTo rname (chatMessage st sid now text).2 = [msg] ∧
     (length (roomHistory st rname) = 200 →
      roomHistory st' rname = tail (roomHistory st rname) ++ [msg]) ∧
     (length (roomHistory st rname) < 200 →
      roomHistory st' rname = roomHistory st rname ++ [msg]) ∧
     length (roomHistory st' rname) ≤ 200).
Proof.
  intros st. pose proof (history_is_recent_log es rname) as Hlog. fold st in Hlog.
  assert (length (roomHistory st rname) ≤ 200) as Hlen.
  { rewrite Hlog, sliceLast_length. lia. }
  split_and!; [done | done | rewrite Hlog; apply sliceLast_suffix |].
  intros sid now text info Hinfo <- msg st'.
  destruct (chatMessage_joined st sid now text info Hinfo) as (Hacts & _ & Hroom & _).
  assert (roomHistory st' (room info) = pushLimited (roomHistory st (room info)) msg)
    as Hpush.
  { unfold roomHistory at 1. unfold st'. by rewrite Hroom. }
  split_and!.
  - rewrite Hacts. simpl. by rewrite decide_True.
  - intros Hfull. by rewrite Hpush, pushLimited_full.
  - intros Hroomy. by rewrite Hpush, pushLimited_room.
  - rewrite Hpush. destruct (decide (length (roomHistory st (room info)) = 200)).
    + rewrite pushLimited_full by done. rewrite length_app. simpl.
      destruct (roomHistory st (room info)); simpl in *; lia.
    + rewrite pushLimited_room by lia. rewrite length_app. simpl. lia.
Qed.

Lemma history_retention_witness :
  let st := (run init es_full).1 in
  let msg := {| msg_username := "alice"; msg_text := "last"; msg_ts := 999 |} in
  length (roomHistory st "General") = 200 ∧
  roomHistory (chatMessage st "a" 999 (JsString "last")).1 "General" =
    tail (roomHistory st "General") ++ [msg].
Proof.
  intros st msg.
  destruct (history_retention es_full "General") as (_ & _ & _ & Hstep).
  destruct (Hstep "a" 999%Z (JsString "last")
              {| username := "alice"; room := "General" |})
    as (_ & Hfull & _).
  - vm_compute. reflexivity.
  - reflexivity.
  - assert (length (roomHistory st "General") = 200) as Hlen.
    { vm_compute. reflexivity. }
    split; [exact Hlen | exact (Hfull Hlen)].
Defined.

(** ** joinRoom: the history replayed to the joiner *)

(** C7.  The only [joined] event of a [joinRoom] goes to the joiner's
    socket, and the history it carries is [slice(-50)] of the history of the
    room joined: the last 50 entries when there are more than 50, all of
    them otherwise, in the order of the history, which the join leaves
    unchanged.  After any run of the event loop those are the most recent
    messages broadcast to the room, oldest first. *)
Theorem joinRoom_recent_history st sid u r :
  let h := roomHistory st (normRoom r) in
  let acts := (joinRoom st sid u r).2 in
  (∃ names, Emit (SocketEmit sid)
              (Joined (normRoom r) (normUsername u) names (sliceLast 50 h)) ∈ acts) ∧
  (∀ t rn un ns hs, Emit t (Joined rn un ns hs) ∈ acts →
                    t = SocketEmit sid ∧ rn = normRoom r ∧ hs = sliceLast 50 h) ∧
  length (sliceLast 50 h) = 50 `min` length h ∧
  sliceLast 50 h `suffix_of` h ∧
  roomHistory (joinRoom st sid u r).1 (normRoom r) = h ∧
  (∀ es, st = (run init es).1 →
         sliceLast 50 h = sliceLast 50 (sentTo (normRoom r) (run init es).2)).
Proof.
  intros h acts.
  destruct (joinRoom_effect st sid u r) as (_ & _ & Hh & Hacts).
  fold acts in Hacts. fold h in Hacts. split_and!.
  - eexists. rewrite Hacts. do 3 (apply elem_of_cons; right).
    apply elem_of_cons. left. reflexivity.
  - intros t rn un ns hs Hin. rewrite Hacts in Hin.
    repeat (apply elem_of_cons in Hin as [Hin|Hin]; [by simplify_eq|]).
    by apply elem_of_nil in Hin.
  - apply sliceLast_length.
  - apply sliceLast_suffix.
  - apply Hh.
  - intros es ->. unfold h. rewrite history_is_recent_log.
    apply sliceLast_sliceLast. lia.
Qed.

Lemma joinRoom_recent_history_witness :
  let st := (run init es_full).1 in
  sliceLast 50 (roomHistory st "General") =
    sliceLast 50 (sentTo "General" (run init es_full).2).
Proof.
  intros st.
  destruct (joinRoom_recent_history st "b" (JsString "bob") (JsString "General"))
    as (_ & _ & _ & _ & _ & Hlog).
  exact (Hlog es_full eq_refl).
Defined.

(** ** privateMessage: the body *)



(** ** Rosters and the registry *)

Lemma handle_effect st e :
  let st' := (handle st e).1 in
  let sid := on_socket e in
  (clients st' = clients st ∧ ∀ rn, roomUsers st' rn = roomUsers st rn) ∨
  (∃ u r, event e = JoinRoom u r ∧
     clients st' =
       <[sid := {| username := normUsername u; room := normRoom r |}]> (clients st) ∧
     ∀ rn, roomUsers st' rn =
           if decide (rn = normRoom r)
           then jmap_set sid (normUsername u) (roomUsers st rn)
           else roomUsers st rn) ∨
  (∃ info, clients st !! sid = Some info ∧
     clients st' = delete sid (clients st) ∧
     ∀ rn, roomUsers st' rn =
           if decide (rn = room info)
           then jmap_delete sid (roomUsers st rn)
           else roomUsers st rn).
Proof.
  intros st' sid. unfold st', handle. fold sid.
  destruct (event e) as [u r| |text| | |to message|].
  - right; left. exists u, r.
    destruct (joinRoom_effect st sid u r) as (Hc & Hu & _). done.
  - destruct (clients st !! sid) as [info|] eqn:Hinfo.
    + right; right. exists info.
      destruct (leaveRoom_effect st sid info Hinfo) as (Hc & Hu & _). done.
    + left. unfold leaveRoom. by rewrite Hinfo.
  - left. destruct (clients st !! sid) as [info|] eqn:Hinfo.
    + apply (chatMessage_effect st sid (at_time e) text info Hinfo).
    + unfold chatMessage. by rewrite Hinfo.
  - left. unfold typing. by destruct (clients st !! sid).
  - left. unfold stopTyping. by destruct (clients st !! sid).
  - left. destruct (privateMessage_effect st sid (at_time e) to message) as (-> & _).
    done.
  - destruct (clients st !! sid) as [info|] eqn:Hinfo.
    + right; right. exists info.
      destruct (disconnect_effect st sid info Hinfo) as (Hc & Hu & _). done.
    + left. unfold disconnect. by rewrite Hinfo.
Qed.

(** Every roster a handler broadcasts is sent with [io.to(room)] and is
    the roster of that room when the handler returns. *)
Lemma handle_users_broadcast st e t names :
  Emit t (Users names) ∈ (handle st e).2 →
  ∃ rn, t = IoTo rn ∧ names = jmap_values (roomUsers (handle st e).1 rn).
Proof.
  unfold handle. destruct (event e) as [u r| |text| | |to message|].
  - destruct (joinRoom_effect st (on_socket e) u r) as (_ & _ & _ & Hacts).
    rewrite Hacts. intros Hin. exists (normRoom r).
    repeat (apply elem_of_cons in Hin as [Hin|Hin]; [by simplify_eq|]).
    by apply elem_of_nil in Hin.
  - destruct (clients st !! on_socket e) as [info|] eqn:Hinfo.
    + destruct (leaveRoom_effect st _ info Hinfo) as (_ & _ & _ & Hb & _).
      intros Hin. exists (room info). by apply Hb.
    + unfold leaveRoom. rewrite Hinfo. intros Hin. by apply elem_of_nil in Hin.
  - unfold chatMessage. destruct (clients st !! on_socket e) as [info|].
    + destruct (ensureRoom _ _). simpl. intros Hin.
      apply list_elem_of_singleton in Hin. discriminate.
    + intros Hin. apply list_elem_of_singleton in Hin. discriminate.
  - unfold typing. destruct (clients st !! on_socket e); intros Hin.
    + apply list_elem_of_singleton in Hin. discriminate.
    + by apply elem_of_nil in Hin.
  - unfold stopTyping. destruct (clients st !! on_socket e); intros Hin.
    + apply list_elem_of_singleton in Hin. discriminate.
    + by apply elem_of_nil in Hin.
  - intros Hin.
    by destruct (privateMessage_effect st (on_socket e) (at_time e) to message)
      as (_ & Hno & _); apply Hno in Hin.
  - destruct (clients st !! on_socket e) as [info|] eqn:Hinfo.
    + destruct (disconnect_effect st _ info Hinfo) as (_ & _ & _ & Hb & _).
      intros Hin. exists (room info). by apply Hb.
    + unfold disconnect. rewrite Hinfo. intros Hin. by apply elem_of_nil in Hin.
Qed.

Lemma registryInRoster_init : registryInRoster init.
Proof.
  split.
  - intros sid info Hinfo. simpl in Hinfo. by rewrite lookup_empty in Hinfo.
  - intros rn. unfold roomUsers. simpl. rewrite lookup_empty. simpl. constructor.
Qed.

Lemma rosterInRegistry_init : rosterInRegistry init.
Proof.
  intros rn sid u. unfold roomUsers. simpl. by rewrite lookup_empty.
Qed.

(** Holds after every event, room switches included. *)
Lemma handle_registryInRoster st e :
  registryInRoster st → registryInRoster (handle st e).1.
Proof.
  intros [Hsess Hnd].
  destruct (handle_effect st e) as [(Hc & Hu)|[(u & r & _ & Hc & Hu)|(info & _ & Hc & Hu)]].
  - split.
    + intros sid info. rewrite Hc, Hu. apply Hsess.
    + intros rn. rewrite Hu. apply Hnd.
  - split.
    + intros sid info. rewrite Hc, Hu.
      destruct (decide (on_socket e = sid)) as [<-|Hsid].
      * rewrite lookup_insert_eq. intros [= <-]. simpl.
        rewrite decide_True by done. rewrite jmap_get_set. by rewrite decide_True.
      * rewrite lookup_insert_ne by done. intros Hinfo.
        case_decide; [|by apply Hsess].
        rewrite jmap_get_set, decide_False by done. by apply Hsess.
    + intros rn. rewrite Hu. case_decide; [|apply Hnd].
      apply jmap_set_NoDup, Hnd.
  - split.
    + intros sid info'. rewrite Hc, Hu.
      destruct (decide (on_socket e = sid)) as [<-|Hsid].
      * by rewrite lookup_delete_eq.
      * rewrite lookup_delete_ne by done. intros Hinfo'.
        case_decide; [|by apply Hsess].
        rewrite jmap_get_delete, decide_False by done. by apply Hsess.
    + intros rn. rewrite Hu. case_decide; [|apply Hnd].
      apply jmap_delete_NoDup, Hnd.
Qed.

(** Holds after an event that is not a room switch. *)
Lemma handle_rosterInRegistry st e :
  rosterInRegistry st → switchesRoom st e = false →
  rosterInRegistry (handle st e).1.
Proof.
  intros Hros Hsw.
  destruct (handle_effect st e) as [(Hc & Hu)|[(u & r & He & Hc & Hu)|(info & Hi & Hc & Hu)]].
  - intros rn sid u. rewrite Hc, Hu. apply Hros.
  - intros rn sid u'. rewrite Hc, Hu.
    unfold switchesRoom in Hsw. rewrite He in Hsw.
    destruct (decide (on_socket e = sid)) as [<-|Hsid].
    + rewrite lookup_insert_eq. case_decide as Hrn.
      * subst rn. rewrite jmap_get_set, decide_True by done. by intros [= <-].
      * intros Hget. apply Hros in Hget. rewrite Hget in Hsw. simpl in Hsw.
        apply negb_false_iff, bool_decide_eq_true in Hsw. congruence.
    + rewrite lookup_insert_ne by done. case_decide; [|apply Hros].
      rewrite jmap_get_set, decide_False by done. apply Hros.
  - intros rn sid u. rewrite Hc, Hu.
    destruct (decide (on_socket e = sid)) as [<-|Hsid].
    + case_decide as Hrn.
      * by rewrite jmap_get_delete, decide_True.
      * intros Hget. apply Hros in Hget. rewrite Hi in Hget.
        injection Hget as ->. done.
    + rewrite lookup_delete_ne by done. case_decide; [|apply Hros].
      rewrite jmap_get_delete, decide_False by done. apply Hros.
Qed.

Lemma run_registryInRoster st es :
  registryInRoster st → registryInRoster (run st es).1.
Proof.
  revert st. induction es as [|e es IH]; intros st Hinv; [done|].
  rewrite run_cons. simpl. by apply IH, handle_registryInRoster.
Qed.

Lemma run_rosterInRegistry st es :
  rosterInRegistry st → noSwitch st es = true → rosterInRegistry (run st es).1.
Proof.
  revert st. induction es as [|e es IH]; intros st Hinv Hns; [done|].
  simpl in Hns. apply andb_true_iff in Hns as [Hsw Hns].
  apply negb_true_iff in Hsw.
  rewrite run_cons. simpl. by apply IH; [apply handle_rosterInRegistry|].
Qed.

(** When both inclusions hold, the roster of a room lists exactly the
    sessions of the registry whose room it is. *)
Lemma roster_permutation st rn :
  registryInRoster st → rosterInRegistry st →
  roomUsers st rn ≡ₚ (λ kv, (kv.1, username kv.2)) <$> sessionsIn st rn.
Proof.
  intros [Hsess Hnd] Hros. apply NoDup_Permutation.
  - apply (NoDup_fmap_1 fst), Hnd.
  - apply (NoDup_fmap_1 fst). rewrite <- list_fmap_compose.
    apply (sublist_NoDup _ (map_to_list (clients st)).*1).
    + apply NoDup_fst_map_to_list.
    + change ((sessionsIn st rn).*1 `sublist_of` (map_to_list (clients st)).*1).
      apply fmap_sublist, sublist_filter.
  - intros [sid u]. rewrite list_elem_of_fmap. split.
    + intros Hin. apply jmap_elem_of_get in Hin; [|apply Hnd].
      apply Hros in Hin. exists (sid, {| username := u; room := rn |}).
      split; [done|].
      apply list_elem_of_filter. split; [done|]. by apply elem_of_map_to_list.
    + intros ([sid' info] & [= -> ->] & Hin).
      apply list_elem_of_filter in Hin as [Hroom Hin]. simpl in Hroom. subst rn.
      apply elem_of_map_to_list in Hin. by apply jmap_get_elem_of, Hsess.
Qed.

Lemma roster_count st rn :
  registryInRoster st → rosterInRegistry st →
  length (roomUsers st rn) = sessionCount st rn ∧
  jmap_values (roomUsers st rn) ≡ₚ sessionNames st rn.
Proof.
  intros Ha Hb. pose proof (roster_permutation st rn Ha Hb) as Hperm. split.
  - rewrite Hperm. unfold sessionCount. by rewrite length_fmap.
  - unfold jmap_values, sessionNames. rewrite Hperm.
    by rewrite <- list_fmap_compose.
Qed.

(** Without any assumption on the joins, every session is still on the
    roster of its room, so a roster is never smaller than the number of
    sessions of its room. *)
Lemma sessions_on_roster es sid info :
  clients (run init es).1 !! sid = Some info →
  (sid, username info) ∈ roomUsers (run init es).1 (room info).
Proof.
  intros Hinfo. apply jmap_get_elem_of.
  by apply (run_registryInRoster init es registryInRoster_init).
Qed.

(** C1, as amended.  Along every sequence of events in which no connection
    joins a room while it holds a session for another room, after each
    event the roster of every room has as many entries as the registry has
    sessions for that room, its names are the names of those sessions,
    and every roster broadcast by a handler is addressed to a room with
    [io.to] and lists the names of the sessions the registry holds for that
    room when the handler returns. *)
Theorem roster_matches_registry es :
  noSwitch init es = true →
  (∀ rname r, rooms (run init es).1 !! rname = Some r →
     length (users r) = sessionCount (run init es).1 rname ∧
     jmap_values (users r) ≡ₚ sessionNames (run init es).1 rname) ∧
  (∀ rname, rooms (run init es).1 !! rname = None →
     sessionCount (run init es).1 rname = 0) ∧
  (∀ es1 e es2 t names,
     es = es1 ++ e :: es2 →
     Emit t (Users names) ∈ (handle (run init es1).1 e).2 →
     ∃ rname, t = IoTo rname ∧
       names ≡ₚ sessionNames (handle (run init es1).1 e).1 rname).
Proof.
  intros Hns.
  assert (∀ es', noSwitch init es' = true → ∀ rn,
            length (roomUsers (run init es').1 rn) = sessionCount (run init es').1 rn ∧
            jmap_values (roomUsers (run init es').1 rn)
              ≡ₚ sessionNames (run init es').1 rn) as Hall.
  { intros es' Hns' rn. apply roster_count.
    - apply run_registryInRoster, registryInRoster_init.
    - by apply run_rosterInRegistry; [apply rosterInRegistry_init|]. }
  split_and!.
  - intros rname r Hr. specialize (Hall es Hns rname).
    unfold roomUsers in Hall. by rewrite Hr in Hall.
  - intros rname Hr. destruct (Hall es Hns rname) as [Hlen _].
    unfold roomUsers in Hlen. rewrite Hr in Hlen. done.
  - intros es1 e es2 t names -> Hin.
    apply handle_users_broadcast in Hin as (rn & -> & ->). exists rn.
    split; [done|]. rewrite <- run_snoc_state. apply Hall.
    replace (es1 ++ e :: es2) with ((es1 ++ [e]) ++ es2) in Hns
      by (by rewrite <- app_assoc).
    rewrite noSwitch_app in Hns. by apply andb_true_iff in Hns as [Hns _].
Qed.

Lemma roster_matches_registry_witness :
  length [("a", "alice2")] = sessionCount (run init es_steady).1 "General" ∧
  jmap_values [("a", "alice2")] ≡ₚ sessionNames (run init es_steady).1 "General".
Proof.
  destruct (roster_matches_registry es_steady) as (Hrooms & _).
  - vm_compute. reflexivity.
  - apply (Hrooms "General"
             {| users := [("a", "alice2")];
                history := [{| msg_username := "alice"; msg_text := "hi";
                               msg_ts := 3 |}] |}).
    vm_compute. reflexivity.
Defined.

(** C1, as stated, fails: after "a" joined "R1" and then "R2", the roster
    of "R1" still has the entry of "a" while the registry has no session for
    "R1". *)
Lemma roster_drift_counterexample :
  ¬ (∀ es rname r, rooms (run init es).1 !! rname = Some r →
       length (users r) = sessionCount (run init es).1 rname).
Proof.
  intros Hclaim.
  specialize (Hclaim es_switch "R1" {| users := [("a", "alice")]; history := [] |}).
  assert (1 = 0) as Habs; [|discriminate].
  apply Hclaim. vm_compute. reflexivity.
Qed.

(** The drift reaches the broadcasts: when "b" then joins "R1", the roster
    sent to "R1" names "alice", whose session is for "R2". *)
Lemma ghost_member_broadcast :
  let st := (run init es_switch).1 in
  let e := {| on_socket := "b"; at_time := 3;
              event := JoinRoom (JsString "bob") (JsString "R1") |} in
  Emit (IoTo "R1") (Users ["alice"; "bob"]) ∈ (handle st e).2 ∧
  sessionNames (handle st e).1 "R1" = ["bob"].
Proof.
  split.
  - vm_compute. apply elem_of_cons. right. apply elem_of_cons. right.
    apply elem_of_cons. by left.
  - vm_compute. reflexivity.
Qed.

(** ** The scenarios of the specification *)

Example scenario_join :
  (run init
     [ {| on_socket := "a"; at_time := 1;
          event := JoinRoom (JsString "alice") (JsString "General") |};
       {| on_socket := "b"; at_time := 2;
          event := JoinRoom (JsString "bob") (JsString "General") |} ]).2 =
  [ Join "a" "General";
    Emit (SocketTo "a" "General") (System "alice has joined the room");
    Emit (IoTo "General") (Users ["alice"]);
    Emit (SocketEmit "a") (Joined "General" "alice" ["alice"] []);
    Join "b" "General";
    Emit (SocketTo "b" "General") (System "bob has joined the room");
    Emit (IoTo "General") (Users ["alice"; "bob"]);
    Emit (SocketEmit "b") (Joined "General" "bob" ["alice"; "bob"] []) ].
Proof. vm_compute. reflexivity. Qed.

Example scenario_message :
  (chatMessage st_alice_bob "a" 3 (JsString "hi")).2 =
  [ Emit (IoTo "General")
      (MessageEv {| msg_username := "alice"; msg_text := "hi"; msg_ts := 3 |}) ].
Proof. vm_compute. reflexivity. Qed.

Example scenario_private :
  let st := (chatMessage st_alice_bob "a" 3 (JsString "hi")).1 in
  (privateMessage st "a" 4 (JsString "bob") (JsString "secret")).2 =
    [ Emit (IoTo "b") (PrivateMessageEv "alice" (JsString "secret") 4);
      Emit (SocketEmit "a") (System "Private message sent to bob") ] ∧
  length (roomHistory (privateMessage st "a" 4 (JsString "bob") (JsString "secret")).1
            "General") = 1.
Proof. split; vm_compute; reflexivity. Qed.

Example scenario_unjoined :
  (chatMessage st_alice_bob "c" 5 (JsString "x")).2 =
  [ Emit (SocketEmit "c") (System "Please join a room first") ].
Proof. vm_compute. reflexivity. Qed.

Example scenario_unknown_user :
  (privateMessage st_alice_bob "a" 6 (JsString "carol") (JsString "hello")).2 =
  [ Emit (SocketEmit "a") (System "User not found in room: carol") ].
Proof. vm_compute. reflexivity. Qed.

(** A join whose payload has no [room] field, next to one whose [room] is
    blank. *)
Example scenario_room_default :
  normRoom (JsString "   ") = "General" ∧
  normRoom (JsString " Tech ") = "Tech" ∧
  normRoom JsUndefined = "undefined" ∧
  normUsername (JsString "  ") = "Anonymous" ∧
  normUsername JsUndefined = "undefined".
Proof. repeat split. Qed.

(** * Further properties of the code *)

(** ** Trimming and normalisation *)

Lemma trimEnd_idem s : trimEnd (trimEnd s) = trimEnd s.
Proof.
  induction s as [|c s IH]; [done|]. simpl.
  destruct (trimEnd s) as [|c' t] eqn:Ht.
  - destruct (isWhiteSpace c) eqn:Hc; [done|]. simpl. by rewrite Hc.
  - simpl. simpl in IH. by rewrite IH.
Qed.

Lemma trimEnd_last s t c :
  trimEnd s = t +:+ String c EmptyString → isWhiteSpace c = false.
Proof.
  revert t. induction s as [|a s IH]; intros t; simpl.
  - by destruct t.
  - destruct (trimEnd s) as [|c' u] eqn:Hu.
    + destruct (isWhiteSpace a) eqn:Ha.
      * by destruct t.
      * destruct t as [|b t]; [by intros [= <-]|].
        rewrite append_cons. intros [= _ Hnil]. by destruct t.
    + destruct t as [|b t].
      * rewrite append_empty_l. by intros [= _ Hnil].
      * rewrite append_cons. intros [= _ Htail]. by apply (IH t).
Qed.

Lemma trim_idem s : trim (trim s) = trim s.
Proof.
  unfold trim. pose proof (trim_head s) as Hhd. unfold trim in Hhd.
  destruct (trimEnd (trimStart s)) as [|c t] eqn:Ht; [done|].
  simpl trimStart. rewrite Hhd. rewrite <- Ht. apply trimEnd_idem.
Qed.

(** What [trim] returns.  The input is the result between two runs of
    white space; the result neither starts nor ends with white space, and
    trimming it again changes nothing. *)
Theorem trim_characterisation s :
  (∃ l r, s = l +:+ trim s +:+ r ∧ allWhiteSpace l ∧ allWhiteSpace r) ∧
  (∀ c t, trim s = String c t → isWhiteSpace c = false) ∧
  (∀ t c, trim s = t +:+ String c EmptyString → isWhiteSpace c = false) ∧
  trim (trim s) = trim s.
Proof.
  split_and!.
  - apply trim_spec.
  - intros c t Heq. pose proof (trim_head s) as Hhd. by rewrite Heq in Hhd.
  - intros t c. apply trimEnd_last.
  - apply trim_idem.
Qed.

(** X2.  The room name [joinRoom] stores is never empty, and normalising a
    stored room name gives it back: a client that joins with the room name
    the server reported joins that same room. *)
Theorem normRoom_stable room0 :
  normRoom room0 ≠ EmptyString ∧
  normRoom (JsString (normRoom room0)) = normRoom room0.
Proof.
  split; [apply normRoom_nonempty|].
  unfold normRoom. cbn [toString].
  destruct (orDefault_spec (trim (toString room0)) "General") as [[_ ->]|[Hne ->]].
  - reflexivity.
  - rewrite trim_idem. by destruct (trim (toString room0)).
Qed.

(** ** What a handler broadcasts to a room, and what it stores *)

(** A handler broadcasts at most one message to a room: the one a
    [chatMessage] builds from the sender's session and the clock. *)
Lemma sentTo_handle st e rn :
  sentTo rn (handle st e).2 = [] ∨
  ∃ info text,
    event e = ChatMessage text ∧ clients st !! on_socket e = Some info ∧
    room info = rn ∧
    sentTo rn (handle st e).2 =
      [{| msg_username := username info;
          msg_text := substring0 1000 (toString text);
          msg_ts := at_time e |}].
Proof.
  unfold handle. destruct (event e) as [u r| |text| | |to message|] eqn:He.
  - left. by destruct (joinRoom_effect st (on_socket e) u r) as (_ & _ & _ & ->).
  - left. destruct (clients st !! on_socket e) as [info|] eqn:Hinfo.
    + by destruct (leaveRoom_effect st _ info Hinfo) as (_ & _ & _ & _ & ->).
    + unfold leaveRoom. by rewrite Hinfo.
  - destruct (clients st !! on_socket e) as [info|] eqn:Hinfo.
    + destruct (chatMessage_joined st _ (at_time e) text info Hinfo) as (-> & _).
      simpl. case_decide as Hrn; [|by left].
      right. by exists info, text.
    + left. unfold chatMessage. by rewrite Hinfo.
  - left. unfold typing. by destruct (clients st !! on_socket e).
  - left. unfold stopTyping. by destruct (clients st !! on_socket e).
  - left. by destruct (privateMessage_effect st (on_socket e) (at_time e) to message)
      as (_ & _ & ->).
  - left. destruct (clients st !! on_socket e) as [info|] eqn:Hinfo.
    + by destruct (disconnect_effect st _ info Hinfo) as (_ & _ & _ & _ & ->).
    + unfold disconnect. by rewrite Hinfo.
Qed.

Lemma elem_of_pushLimited a x m : m ∈ pushLimited a x → m ∈ a ∨ m = x.
Proof.
  unfold pushLimited. cbv zeta. case_decide.
  - intros Hin. assert (m ∈ a ++ [x]) as Hin'.
    { destruct (a ++ [x]) as [|y l]; [done|]. simpl in Hin.
      apply elem_of_cons. by right. }
    apply elem_of_app in Hin' as [?|Hx]; [by left|].
    apply list_elem_of_singleton in Hx. by right.
  - intros Hin. apply elem_of_app in Hin as [?|Hx]; [by left|].
    apply list_elem_of_singleton in Hx. by right.
Qed.

Lemma boundedState_init : boundedState init.
Proof.
  split_and!.
  - intros sid info Hinfo. simpl in Hinfo. by rewrite lookup_empty in Hinfo.
  - intros rn sid u. unfold roomUsers. simpl. by rewrite lookup_empty.
  - intros rn m. unfold roomHistory. simpl. rewrite lookup_empty. simpl.
    intros Hin. by apply elem_of_nil in Hin.
Qed.

Lemma handle_boundedState st e : boundedState st → boundedState (handle st e).1.
Proof.
  intros (Hsess & Hros & Hhist). split_and!.
  - destruct (handle_effect st e)
      as [(Hc & _)|[(u & r & _ & Hc & _)|(info & _ & Hc & _)]]; rewrite Hc.
    + done.
    + intros sid info. destruct (decide (on_socket e = sid)) as [<-|Hsid].
      * rewrite lookup_insert_eq. intros [= <-]. simpl.
        split; [apply normUsername_length | apply normRoom_nonempty].
      * rewrite lookup_insert_ne by done. apply Hsess.
    + intros sid info'. destruct (decide (on_socket e = sid)) as [<-|Hsid].
      * by rewrite lookup_delete_eq.
      * rewrite lookup_delete_ne by done. apply Hsess.
  - destruct (handle_effect st e)
      as [(_ & Hu)|[(u & r & _ & _ & Hu)|(info & _ & _ & Hu)]];
      intros rn sid u'; rewrite Hu.
    + apply (Hros rn sid).
    + case_decide; [|apply (Hros rn sid)]. rewrite jmap_get_set. case_decide.
      * intros [= <-]. apply normUsername_length.
      * apply (Hros rn sid).
    + case_decide; [|apply (Hros rn sid)]. rewrite jmap_get_delete.
      case_decide; [done|]. apply (Hros rn sid).
  - intros rn m. rewrite handle_history.
    destruct (sentTo_handle st e rn) as [->|(info & text & _ & Hinfo & _ & ->)].
    + apply (Hhist rn).
    + simpl. intros [Hin| ->]%elem_of_pushLimited; [by apply (Hhist rn)|].
      split; simpl.
      * by apply Hsess in Hinfo as [? _].
      * rewrite substring0_length. lia.
Qed.

(** X1.  Bounds on what is stored.  After any sequence of events, every
    session has a display name of 1 to 32 characters and a room name that is
    not empty, every name on a roster has 1 to 32 characters, and every
    message in a history has an author of 1 to 32 characters and a text of
    at most 1000 characters. *)
Theorem stored_data_bounded es : boundedState (run init es).1.
Proof.
  assert (∀ st, boundedState st → boundedState (run st es).1) as Hrun.
  { induction es as [|e es IH]; intros st Hst; [done|].
    rewrite run_cons. simpl. by apply IH, handle_boundedState. }
  apply Hrun, boundedState_init.
Qed.

(** ** Timestamps *)

Lemma StronglySorted_sublist {A} (R : relation A) (l k : list A) :
  l `sublist_of` k → StronglySorted R k → StronglySorted R l.
Proof.
  induction 1 as [|x l k Hsub IH|x l k Hsub IH]; intros Hk.
  - constructor.
  - apply StronglySorted_inv in Hk as [Hk Hx]. constructor; [by apply IH|].
    apply Forall_forall. intros y Hy. rewrite Forall_forall in Hx. apply Hx.
    by eapply elem_of_sublist.
  - apply StronglySorted_inv in Hk as [Hk _]. by apply IH.
Qed.

(** The timestamps of the messages broadcast to a room are clock readings
    of the events handled, in order. *)
Lemma sentTo_times st es rn :
  msg_ts <$> sentTo rn (run st es).2 `sublist_of` at_time <$> es.
Proof.
  revert st. induction es as [|e es IH]; intros st; [done|].
  rewrite run_cons. simpl. rewrite sentTo_app, fmap_app.
  destruct (sentTo_handle st e rn) as [->|(info & text & _ & _ & _ & ->)]; simpl.
  - apply sublist_cons, IH.
  - apply sublist_skip, IH.
Qed.

(** X16.  When the clock readings of the events handled never decrease, the
    timestamps of every room's history are in non-decreasing order, and each
    of them is the clock reading of one of the events. *)
Theorem history_timestamps_sorted es rname :
  StronglySorted Z.le (at_time <$> es) →
  StronglySorted Z.le (msg_ts <$> roomHistory (run init es).1 rname) ∧
  msg_ts <$> roomHistory (run init es).1 rname `sublist_of` at_time <$> es.
Proof.
  intros Hclock.
  assert (msg_ts <$> roomHistory (run init es).1 rname `sublist_of` at_time <$> es)
    as Hsub.
  { rewrite history_is_recent_log. unfold sliceLast.
    change (@skipn Message) with (@drop Message). rewrite fmap_drop.
    etrans; [apply sublist_drop | apply sentTo_times]. }
  split; [|done]. by apply (StronglySorted_sublist _ _ _ Hsub).
Qed.

Lemma history_timestamps_sorted_witness :
  StronglySorted Z.le (msg_ts <$> roomHistory (run init es_steady).1 "General").
Proof.
  apply (history_timestamps_sorted es_steady "General").
  simpl. repeat constructor; lia.
Defined.

(** ** Sessions and rosters, whatever the joins *)

(** X3.  After any sequence of events, room switches included, the room of
    every session has a record, the roster of that room has the
    connection under the session's name, and no roster lists a connection
    twice. *)
Theorem session_is_on_roster es sid info :
  clients (run init es).1 !! sid = Some info →
  ∃ r, rooms (run init es).1 !! room info = Some r ∧
       (sid, username info) ∈ users r ∧
       jmap_get sid (users r) = Some (username info) ∧
       NoDup (users r).*1.
Proof.
  intros Hinfo.
  destruct (run_registryInRoster init es registryInRoster_init) as [Hsess Hnd].
  specialize (Hsess sid info Hinfo). specialize (Hnd (room info)).
  unfold roomUsers in Hsess, Hnd.
  destruct (rooms (run init es).1 !! room info) as [r|]; [|done].
  exists r. split_and!; [done| |done..]. by apply jmap_get_elem_of.
Qed.

Lemma session_is_on_roster_witness :
  ∃ r, rooms (run init es_switch).1 !! "R2" = Some r ∧
       ("a", "alice") ∈ users r ∧
       jmap_get "a" (users r) = Some "alice" ∧
       NoDup (users r).*1.
Proof.
  apply (session_is_on_roster es_switch "a" {| username := "alice"; room := "R2" |}).
  vm_compute. reflexivity.
Defined.

(** X4.  In a sequence of events without room switches, a connection that
    has no session is on no roster: a leave or a disconnect leaves nothing
    of the connection behind. *)
Theorem sessionless_on_no_roster es sid rname :
  noSwitch init es = true →
  clients (run init es).1 !! sid = None →
  jmap_get sid (roomUsers (run init es).1 rname) = None ∧
  sid ∉ (roomUsers (run init es).1 rname).*1.
Proof.
  intros Hns Hnone.
  assert (jmap_get sid (roomUsers (run init es).1 rname) = None) as Hget.
  { destruct (jmap_get sid (roomUsers (run init es).1 rname)) as [u|] eqn:Hget; [|done].
    apply (run_rosterInRegistry init es rosterInRegistry_init Hns) in Hget.
    congruence. }
  split; [done | by apply jmap_get_None].
Qed.

Lemma sessionless_on_no_roster_witness :
  jmap_get "b" (roomUsers (run init es_steady).1 "General") = None ∧
  "b" ∉ (roomUsers (run init es_steady).1 "General").*1.
Proof.
  apply (sessionless_on_no_roster es_steady "b" "General");
    vm_compute; reflexivity.
Defined.

(** X5.  [leaveRoom] and [disconnect] clear the session and take the
    connection off the roster of the session's room only; the roster of any
    other room, on which an earlier join may have left the connection, is
    not touched. *)
Theorem leave_current_room_only st sid info :
  clients st !! sid = Some info →
  clients (leaveRoom st sid).1 !! sid = None ∧
  clients (disconnect st sid).1 !! sid = None ∧
  jmap_get sid (roomUsers (leaveRoom st sid).1 (room info)) = None ∧
  jmap_get sid (roomUsers (disconnect st sid).1 (room info)) = None ∧
  (∀ rn, rn ≠ room info →
         roomUsers (leaveRoom st sid).1 rn = roomUsers st rn ∧
         roomUsers (disconnect st sid).1 rn = roomUsers st rn).
Proof.
  intros Hinfo.
  destruct (leaveRoom_effect st sid info Hinfo) as (Hc & Hu & _).
  destruct (disconnect_effect st sid info Hinfo) as (Hc' & Hu' & _).
  rewrite Hc, Hc', !lookup_delete_eq, Hu, Hu', !decide_True by done.
  rewrite !jmap_get_delete, !decide_True by done.
  split_and!; try done.
  intros rn Hrn. by rewrite Hu, Hu', !decide_False by done.
Qed.

Lemma leave_current_room_only_witness :
  roomUsers (disconnect (run init es_switch).1 "a").1 "R1" = [("a", "alice")].
Proof.
  destruct (leave_current_room_only (run init es_switch).1 "a"
              {| username := "alice"; room := "R2" |}) as (_ & _ & _ & _ & Hother).
  - vm_compute. reflexivity.
  - destruct (Hother "R1") as [_ ->]; [done|]. vm_compute. reflexivity.
Defined.

(** X6.  [disconnect] changes the stores exactly as [leaveRoom] does, but it
    makes no [socket.leave] call and emits nothing to the socket that
    disconnected. *)
Theorem disconnect_like_leave st sid :
  (disconnect st sid).1 = (leaveRoom st sid).1 ∧
  (∀ a, a ∈ (disconnect st sid).2 →
        ∃ info ev, clients st !! sid = Some info ∧
                   (a = Emit (SocketTo sid (room info)) ev ∨
                    a = Emit (IoTo (room info)) ev)).
Proof.
  unfold disconnect, leaveRoom.
  destruct (clients st !! sid) as [info|]; [|split; [done|]].
  - destruct (rooms st !! room info) as [r|]; simpl; (split; [done|]).
    + intros a Hin. exists info.
      apply elem_of_cons in Hin as [->|Hin].
      * eexists. split; [done|]. by left.
      * apply list_elem_of_singleton in Hin as ->. eexists. split; [done|]. by right.
    + intros a Hin. by apply elem_of_nil in Hin.
  - intros a Hin. by apply elem_of_nil in Hin.
Qed.

(** X7.  After a [leaveRoom] the connection has no session, whatever the
    state before: a further [leaveRoom], a [disconnect] or a typing signal
    does nothing at all, and a [chatMessage] is answered with the notice to
    join first. *)
Theorem after_leave_unjoined st sid now text :
  let st1 := (leaveRoom st sid).1 in
  leaveRoom st1 sid = (st1, []) ∧
  disconnect st1 sid = (st1, []) ∧
  typing st1 sid = (st1, []) ∧
  stopTyping st1 sid = (st1, []) ∧
  chatMessage st1 sid now text =
    (st1, [Emit (SocketEmit sid) (System "Please join a room first")]).
Proof.
  intros st1.
  assert (clients st1 !! sid = None) as Hnone.
  { unfold st1, leaveRoom. destruct (clients st !! sid) as [info|] eqn:Hc; [|done].
    destruct (rooms st !! room info); simpl; apply lookup_delete_eq. }
  unfold leaveRoom, disconnect, typing, stopTyping, chatMessage.
  by rewrite Hnone.
Qed.

Lemma state_eq st st' :
  rooms st = rooms st' → clients st = clients st' → st = st'.
Proof. destruct st, st'. simpl. by intros -> ->. Qed.

Lemma jmap_delete_set_fresh {K V} `{EqDecision K} (k : K) (v : V) m :
  jmap_get k m = None → jmap_delete k (jmap_set k v m) = m.
Proof.
  induction m as [|[k0 v0] m IH]; simpl.
  - by rewrite decide_True.
  - case_decide as Hk; [done|]. intros Hget. simpl.
    rewrite decide_False by done. by rewrite IH.
Qed.

(** X8.  A join followed by a leave is a round trip.  When the connection
    has no session and is on the roster of no record of the room, joining
    and then leaving gives back the state before, except that the record of
    a room that did not exist stays, with an empty roster and an empty
    history. *)
Theorem join_leave_roundtrip st sid u r :
  clients st !! sid = None →
  jmap_get sid (roomUsers st (normRoom r)) = None →
  let st2 := (leaveRoom (joinRoom st sid u r).1 sid).1 in
  clients st2 = clients st ∧
  (∀ rn, roomUsers st2 rn = roomUsers st rn) ∧
  (∀ rn, roomHistory st2 rn = roomHistory st rn) ∧
  (is_Some (rooms st !! normRoom r) → st2 = st) ∧
  (rooms st !! normRoom r = None →
   rooms st2 = <[normRoom r := {| users := []; history := [] |}]> (rooms st)).
Proof.
  intros Hnone Hfresh st2.
  destruct (joinRoom_effect st sid u r) as (Hc1 & Hu1 & Hh1 & _).
  assert (clients (joinRoom st sid u r).1 !! sid =
            Some {| username := normUsername u; room := normRoom r |}) as Hinfo.
  { rewrite Hc1. apply lookup_insert_eq. }
  destruct (leaveRoom_effect _ sid _ Hinfo) as (Hc2 & Hu2 & Hh2 & _).
  fold st2 in Hc2, Hu2, Hh2. simpl in Hu2.
  assert (clients st2 = clients st) as Hc.
  { rewrite Hc2, Hc1, delete_insert_eq. by apply delete_id. }
  assert (∀ rn, roomUsers st2 rn = roomUsers st rn) as Hu.
  { intros rn. rewrite Hu2, Hu1. case_decide as Hrn; [|done]. subst rn.
    by apply jmap_delete_set_fresh. }
  assert (∀ rn, roomHistory st2 rn = roomHistory st rn) as Hh.
  { intros rn. by rewrite Hh2, Hh1. }
  assert (rooms st2 =
            <[normRoom r := {| users := roomUsers st (normRoom r);
                               history := roomHistory st (normRoom r) |}]> (rooms st))
    as Hrooms.
  { unfold st2, leaveRoom. rewrite Hinfo. simpl.
    unfold joinRoom at 1 2. unfold joinRoom in Hu1.
    pose proof (ensureRoom_history (normRoom r) (rooms st)) as Heh.
    pose proof (ensureRoom_users (normRoom r) (rooms st)) as Heu.
    assert ((ensureRoom (normRoom r) (rooms st)).1 = rooms st ∨
            (ensureRoom (normRoom r) (rooms st)).1 =
              <[normRoom r := {| users := []; history := [] |}]> (rooms st)) as He1.
    { unfold ensureRoom. destruct (rooms st !! normRoom r); [by left|by right]. }
    destruct (ensureRoom (normRoom r) (rooms st)) as [rooms1 r1]. simpl in *.
    rewrite lookup_insert_eq. simpl. rewrite insert_insert_eq.
    rewrite jmap_delete_set_fresh by (by rewrite Heu). rewrite Heu, Heh.
    destruct He1 as [->| ->]; [done|]. by rewrite insert_insert_eq. }
  split_and!; [done..| |].
  - intros [rm Hrm]. apply state_eq; [|done]. rewrite Hrooms.
    apply insert_id. unfold roomUsers, roomHistory. rewrite Hrm. simpl.
    by destruct rm.
  - intros Hr. rewrite Hrooms. unfold roomUsers, roomHistory. by rewrite Hr.
Qed.

Lemma join_leave_roundtrip_witness :
  (leaveRoom (joinRoom st_alice_bob "c" (JsString "carol") (JsString "General")).1
     "c").1 = st_alice_bob.
Proof.
  destruct (join_leave_roundtrip st_alice_bob "c" (JsString "carol")
              (JsString "General")) as (_ & _ & _ & Hsame & _).
  - vm_compute. reflexivity.
  - vm_compute. reflexivity.
  - apply Hsame. vm_compute. by eexists.
Defined.

(** ** privateMessage: every outcome *)

Lemma findTarget_elem_of to m target :
  findTarget to m = Some target → ∃ name, (target, name) ∈ m ∧ to = JsString name.
Proof.
  intros Hfind.
  destruct (findTarget_first _ _ _ Hfind) as (pre & name & post & -> & -> & _).
  exists name. split; [|done]. apply elem_of_app. right. apply elem_of_cons. by left.
Qed.

Lemma findTarget_None to m :
  (∀ name, to = JsString name → name ∉ jmap_values m) → findTarget to m = None.
Proof.
  unfold jmap_values. induction m as [|[s u] m IH]; simpl; [done|].
  intros Hto. destruct (strictEq u to) eqn:Heq.
  - exfalso. destruct to as [| | |name|]; try done. simpl in Heq.
    apply bool_decide_eq_true in Heq. subst u.
    apply (Hto name eq_refl). apply elem_of_cons. by left.
  - apply IH. intros name Hname Hin. apply (Hto name Hname).
    apply elem_of_cons. by right.
Qed.

(** The calls a [privateMessage] makes have one of two shapes. *)
Lemma privateMessage_calls st sid now to message :
  (∃ txt, (privateMessage st sid now to message).2 =
            [Emit (SocketEmit sid) (System txt)]) ∨
  (∃ target from txt,
     (privateMessage st sid now to message).2 =
       [ Emit (IoTo target) (PrivateMessageEv from message now);
         Emit (SocketEmit sid) (System txt) ]).
Proof.
  unfold privateMessage.
  destruct (clients st !! sid) as [info|]; [|left; by eexists].
  destruct (rooms st !! room info) as [r|]; [|left; by eexists].
  destruct (findTarget to (users r)) as [target|]; [|left; by eexists].
  destruct (isFalsy (Some target)); [left; by eexists|].
  right. by eexists _, _, _.
Qed.

(** X10.  Whatever its outcome, a [privateMessage] changes no store and makes
    one of two sequences of calls: a single notice to the sender, or the
    private message followed by the confirmation to the sender.  In the
    second case the sender has a session, the payload's [to] is a string,
    and the target of the message is the id of a roster entry with that
    name in the sender's own room: a private message never reaches the
    roster of another room. *)
Theorem privateMessage_outcomes st sid now to message :
  (privateMessage st sid now to message).1 = st ∧
  ((∃ txt, (privateMessage st sid now to message).2 =
             [Emit (SocketEmit sid) (System txt)]) ∨
   (∃ info r target name,
      clients st !! sid = Some info ∧
      rooms st !! room info = Some r ∧
      (target, name) ∈ users r ∧
      to = JsString name ∧
      (privateMessage st sid now to message).2 =
        [ Emit (IoTo target) (PrivateMessageEv (username info) message now);
          Emit (SocketEmit sid) (System ("Private message sent to " +:+ name)) ])).
Proof.
  unfold privateMessage.
  destruct (clients st !! sid) as [info|] eqn:Hinfo; [|split; [done|left; by eexists]].
  destruct (rooms st !! room info) as [r|] eqn:Hr; [|split; [done|left; by eexists]].
  destruct (findTarget to (users r)) as [target|] eqn:Hfind;
    [|split; [done|left; by eexists]].
  destruct (isFalsy (Some target)); [split; [done|left; by eexists]|].
  split; [done|]. right.
  destruct (findTarget_elem_of _ _ _ Hfind) as (name & Hin & ->).
  by exists info, r, target, name.
Qed.

(** X11.  A [privateMessage] whose [to] is not the name of a member of the
    sender's room (in particular one whose [to] is not a string) is
    answered with the notice "User not found in room: " followed by
    [String(to)], and nothing is delivered. *)
Theorem privateMessage_unknown_user st sid now to message info r :
  clients st !! sid = Some info →
  rooms st !! room info = Some r →
  (∀ name, to = JsString name → name ∉ jmap_values (users r)) →
  privateMessage st sid now to message =
    (st, [Emit (SocketEmit sid)
            (System ("User not found in room: " +:+ toString to))]).
Proof.
  intros Hinfo Hr Hto. unfold privateMessage.
  by rewrite Hinfo, Hr, findTarget_None.
Qed.

Lemma privateMessage_unknown_user_witness :
  privateMessage st_alice_bob "a" 6 JsNull (JsString "hello") =
    (st_alice_bob,
     [Emit (SocketEmit "a") (System "User not found in room: null")]).
Proof.
  apply (privateMessage_unknown_user st_alice_bob "a" 6 JsNull (JsString "hello")
           {| username := "alice"; room := "General" |}
           {| users := [("a", "alice"); ("b", "bob")]; history := [] |}).
  - vm_compute. reflexivity.
  - vm_compute. reflexivity.
  - intros name Hname. discriminate.
Defined.

(** ** joinRoom: the roster sent *)





(** ** Who is addressed *)

(** X12.  Who is addressed.  [socket.join], [socket.leave], [socket.emit]
    and [socket.to] are only ever used on the socket the event arrived on;
    the only event sent with [socket.to] is a system notice; and a system
    notice, a [joined] or a [left] acknowledgement is never sent with
    [io.to]. *)
Theorem direct_events_to_sender_only st e a :
  a ∈ (handle st e).2 →
  match a with
  | Join s _ | Leave s _ => s = on_socket e
  | Emit (SocketEmit s) _ => s = on_socket e
  | Emit (SocketTo s _) (System _) => s = on_socket e
  | Emit (SocketTo _ _) _ => False
  | Emit (IoTo _) (System _ | Joined _ _ _ _ | Left _ _) => False
  | Emit (IoTo _) _ => True
  end.
Proof.
  unfold handle. destruct (event e) as [u r| |text| | |to message|].
  - destruct (joinRoom_effect st (on_socket e) u r) as (_ & _ & _ & ->).
    intros Hin.
    repeat (apply elem_of_cons in Hin as [->|Hin]; [done|]).
    by apply elem_of_nil in Hin.
  - unfold leaveRoom. destruct (clients st !! on_socket e) as [info|].
    + destruct (rooms st !! room info); simpl; intros Hin.
      * repeat (apply elem_of_cons in Hin as [->|Hin]; [done|]).
        by apply elem_of_nil in Hin.
      * by apply elem_of_nil in Hin.
    + intros Hin. by apply elem_of_nil in Hin.
  - unfold chatMessage. destruct (clients st !! on_socket e) as [info|].
    + destruct (ensureRoom _ _). simpl. by intros ->%list_elem_of_singleton.
    + by intros ->%list_elem_of_singleton.
  - unfold typing. destruct (clients st !! on_socket e).
    + by intros ->%list_elem_of_singleton.
    + intros Hin. by apply elem_of_nil in Hin.
  - unfold stopTyping. destruct (clients st !! on_socket e).
    + by intros ->%list_elem_of_singleton.
    + intros Hin. by apply elem_of_nil in Hin.
  - destruct (privateMessage_calls st (on_socket e) (at_time e) to message)
      as [[txt ->]|(target & from & txt & ->)].
    + by intros ->%list_elem_of_singleton.
    + intros Hin. repeat (apply elem_of_cons in Hin as [->|Hin]; [done|]).
      by apply elem_of_nil in Hin.
  - unfold disconnect. destruct (clients st !! on_socket e) as [info|].
    + destruct (rooms st !! room info); simpl; intros Hin.
      * repeat (apply elem_of_cons in Hin as [->|Hin]; [done|]).
        by apply elem_of_nil in Hin.
      * by apply elem_of_nil in Hin.
    + intros Hin. by apply elem_of_nil in Hin.
Qed.

Lemma direct_events_to_sender_only_witness :
  "b" = on_socket {| on_socket := "b"; at_time := 5; event := LeaveRoom |}.
Proof.
  apply (direct_events_to_sender_only st_alice_bob
           {| on_socket := "b"; at_time := 5; event := LeaveRoom |}
           (Emit (SocketEmit "b") (Left "General" "bob"))).
  vm_compute. apply elem_of_cons. right. apply elem_of_cons. by left.
Defined.

(** ** Rooms persist *)

Lemma handle_rooms_persist st e rn :
  is_Some (rooms st !! rn) → is_Some (rooms (handle st e).1 !! rn).
Proof.
  intros Hrn. unfold handle. destruct (event e) as [u r| |text| | |to message|].
  - unfold joinRoom.
    pose proof (λ n, ensureRoom_other (normRoom r) n (rooms st)) as Ho.
    destruct (ensureRoom (normRoom r) (rooms st)) as [rooms1 r1]. simpl in *.
    apply lookup_insert_is_Some'. destruct (decide (normRoom r = rn)) as [?|Hne].
    + by left.
    + right. by rewrite Ho.
  - unfold leaveRoom. destruct (clients st !! on_socket e) as [info|]; [|done].
    destruct (rooms st !! room info); simpl; [|done].
    apply lookup_insert_is_Some'. by right.
  - unfold chatMessage. destruct (clients st !! on_socket e) as [info|]; [|done].
    pose proof (λ n, ensureRoom_other (room info) n (rooms st)) as Ho.
    destruct (ensureRoom (room info) (rooms st)) as [rooms1 r1]. simpl in *.
    apply lookup_insert_is_Some'. destruct (decide (room info = rn)) as [?|Hne].
    + by left.
    + right. by rewrite Ho.
  - unfold typing. by destruct (clients st !! on_socket e).
  - unfold stopTyping. by destruct (clients st !! on_socket e).
  - by destruct (privateMessage_effect st (on_socket e) (at_time e) to message)
      as (-> & _).
  - unfold disconnect. destruct (clients st !! on_socket e) as [info|]; [|done].
    destruct (rooms st !! room info); simpl; [|done].
    apply lookup_insert_is_Some'. by right.
Qed.

(** Only a [chatMessage] broadcasts a room message. *)
Lemma sentTo_not_chat st e rn :
  (∀ text, event e ≠ ChatMessage text) → sentTo rn (handle st e).2 = [].
Proof.
  intros Hnot. destruct (sentTo_handle st e rn) as [?|(info & text & He & _)]; [done|].
  by destruct (Hnot text).
Qed.

(** X13.  A room record, once created, is never removed, whatever events
    follow; and the events other than [chatMessage] (joins, leaves, private
    messages, typing signals, disconnects) leave every history as it is. *)
Theorem rooms_persist st es rname :
  (is_Some (rooms st !! rname) → is_Some (rooms (run st es).1 !! rname)) ∧
  (Forall (λ e, ∀ text, event e ≠ ChatMessage text) es →
   roomHistory (run st es).1 rname = roomHistory st rname).
Proof.
  split.
  - revert st. induction es as [|e es IH]; intros st Hrn; [done|].
    rewrite run_cons. simpl. by apply IH, handle_rooms_persist.
  - revert st. induction es as [|e es IH]; intros st Hes; [done|].
    apply Forall_cons in Hes as [He Hes].
    rewrite run_cons. simpl. rewrite IH by done.
    by rewrite handle_history, sentTo_not_chat.
Qed.

Lemma rooms_persist_witness :
  is_Some (rooms (run st_alice_bob
                    [ {| on_socket := "a"; at_time := 3; event := LeaveRoom |};
                      {| on_socket := "b"; at_time := 4; event := Disconnect |} ]).1
             !! "General").
Proof.
  apply (rooms_persist st_alice_bob). vm_compute. by eexists.
Defined.

(** X14.  [ensureRoom] never replaces a record: the room it returns is the
    stored one when there is one, every other room is as before, the room
    asked for has a record afterwards, and calling it again changes
    nothing. *)
Theorem ensureRoom_keeps_rooms name rs :
  (∀ r, rs !! name = Some r → ensureRoom name rs = (rs, r)) ∧
  (ensureRoom name rs).1 !! name = Some (ensureRoom name rs).2 ∧
  (∀ other, other ≠ name → (ensureRoom name rs).1 !! other = rs !! other) ∧
  ensureRoom name (ensureRoom name rs).1 = ensureRoom name rs.
Proof.
  split_and!.
  - intros r Hr. unfold ensureRoom. by rewrite Hr.
  - apply ensureRoom_lookup.
  - intros other Hne. by apply ensureRoom_other.
  - pose proof (ensureRoom_lookup name rs) as Hl.
    destruct (ensureRoom name rs) as [rs1 r1]. simpl in *.
    unfold ensureRoom. by rewrite Hl.
Qed.

(** ** Socket.IO rooms *)

Lemma run_snoc st es e :
  run st (es ++ [e]) =
    ((handle (run st es).1 e).1, (run st es).2 ++ (handle (run st es).1 e).2).
Proof.
  rewrite run_app, (run_cons (run st es).1 e []). cbn [run fst snd].
  by rewrite app_nil_r.
Qed.

Lemma subscribed_app sid name acts acts' :
  subscribed sid name (acts ++ acts') =
    foldl (subscribeStep sid name) (subscribed sid name acts) acts'.
Proof. unfold subscribed. apply foldl_app. Qed.

(** The effect of the calls of one handler on the membership of a socket
    in a Socket.IO room. *)
Lemma handle_subscribeStep st e sid name b :
  foldl (subscribeStep sid name) b (handle st e).2 =
    match event e with
    | JoinRoom _ r =>
        if decide (on_socket e = sid ∧ normRoom r = name) then true else b
    | LeaveRoom =>
        match clients st !! on_socket e with
        | Some info =>
            match rooms st !! room info with
            | Some _ => if decide (on_socket e = sid ∧ room info = name)
                        then false else b
            | None => b
            end
        | None => b
        end
    | _ => b
    end.
Proof.
  unfold handle. destruct (event e) as [u r| |text| | |to message|].
  - by destruct (joinRoom_effect st (on_socket e) u r) as (_ & _ & _ & ->).
  - unfold leaveRoom. destruct (clients st !! on_socket e) as [info|]; [|done].
    by destruct (rooms st !! room info).
  - unfold chatMessage. destruct (clients st !! on_socket e) as [info|]; [|done].
    by destruct (ensureRoom _ _).
  - unfold typing. by destruct (clients st !! on_socket e).
  - unfold stopTyping. by destruct (clients st !! on_socket e).
  - by destruct (privateMessage_calls st (on_socket e) (at_time e) to message)
      as [[txt ->]|(target & from & txt & ->)].
  - unfold disconnect. destruct (clients st !! on_socket e) as [info|]; [|done].
    by destruct (rooms st !! room info).
Qed.

(** X17.  After any sequence of events, the socket of every connection that
    has a session is in the Socket.IO room named after the session's room
    (its last [socket.join] or [socket.leave] call for that room is a
    join), which is the room [chatMessage], [typing] and the roster
    broadcasts address with [io.to]. *)
Theorem session_socket_in_room es sid info :
  clients (run init es).1 !! sid = Some info →
  subscribed sid (room info) (run init es).2 = true.
Proof.
  revert sid info. induction es as [|e es IH] using rev_ind; intros sid info.
  - simpl. by rewrite lookup_empty.
  - rewrite run_snoc. cbn [fst snd].
    rewrite subscribed_app, handle_subscribeStep.
    set (st := (run init es).1) in *. intros Hinfo.
    destruct (handle_effect st e)
      as [(Hc & _)|[(u & r & He & Hc & _)|(info0 & Hi & Hc & _)]];
      fold st in Hc; rewrite Hc in Hinfo.
    + assert (subscribed sid (room info) (run init es).2 = true) as Hsub
        by by apply IH.
      rewrite Hsub. destruct (event e) as [u r| |text| | |to message|] eqn:He;
        try done.
      * by case_decide.
      * destruct (clients st !! on_socket e) as [info0|] eqn:Hi; [|done].
        destruct (rooms st !! room info0) eqn:Hr; [|done].
        exfalso. unfold handle in Hc. rewrite He in Hc.
        destruct (leaveRoom_effect st _ info0 Hi) as (Hc' & _).
        rewrite Hc' in Hc. apply (f_equal (λ m, m !! on_socket e)) in Hc.
        rewrite lookup_delete_eq, Hi in Hc. done.
    + rewrite He. destruct (decide (on_socket e = sid)) as [Hsid|Hsid].
      * subst sid. rewrite lookup_insert_eq in Hinfo. injection Hinfo as <-.
        simpl. by rewrite decide_True.
      * rewrite lookup_insert_ne in Hinfo by done.
        rewrite decide_False by (by intros [? _]). by apply IH.
    + destruct (decide (on_socket e = sid)) as [Hsid|Hsid].
      * subst sid. by rewrite lookup_delete_eq in Hinfo.
      * rewrite lookup_delete_ne in Hinfo by done.
        assert (subscribed sid (room info) (run init es).2 = true) as Hsub
          by by apply IH.
        rewrite Hsub. destruct (event e); try done.
        -- by case_decide.
        -- rewrite Hi. destruct (rooms st !! room info0); [|done].
           by rewrite decide_False by (by intros [? _]).
Qed.

Lemma session_socket_in_room_witness :
  subscribed "a" "R2" (run init es_switch).2 = true.
Proof.
  apply (session_socket_in_room es_switch "a" {| username := "alice"; room := "R2" |}).
  vm_compute. reflexivity.
Defined.

(** ** The bundled client *)

Lemma chars_app a b :
  list_ascii_of_string (a +:+ b) = list_ascii_of_string a ++ list_ascii_of_string b.
Proof.
  induction a as [|c a IH]; [done|]. rewrite append_cons. simpl. by rewrite IH.
Qed.

Lemma length_append a b :
  String.length (a +:+ b) = String.length a + String.length b.
Proof.
  induction a as [|c a IH]; [done|]. rewrite append_cons. simpl. by rewrite IH.
Qed.

Lemma escapeChar_safe c :
  Forall (λ x, htmlActive x = false) (list_ascii_of_string (escapeChar c)).
Proof.
  unfold escapeChar.
  destruct (Ascii.eqb c "&") eqn:H1; [by repeat constructor|].
  destruct (Ascii.eqb c "<") eqn:H2; [by repeat constructor|].
  destruct (Ascii.eqb c ">") eqn:H3; [by repeat constructor|].
  destruct (Ascii.eqb c dquote) eqn:H4; [by repeat constructor|].
  destruct (Ascii.eqb c "'") eqn:H5; [by repeat constructor|].
  destruct (Ascii.eqb c "`") eqn:H6; [by repeat constructor|].
  simpl. constructor; [|constructor]. unfold htmlActive.
  by rewrite H2, H3, H4, H5, H6.
Qed.

Lemma escapeChar_plain c : inEscapeTable c = false → escapeChar c = String c EmptyString.
Proof.
  unfold inEscapeTable, htmlActive, escapeChar. intros Hc.
  repeat (apply orb_false_iff in Hc as [Hc ?]).
  destruct (Ascii.eqb c "&"); [done|].
  destruct (Ascii.eqb c "<"); [done|].
  destruct (Ascii.eqb c ">"); [done|].
  destruct (Ascii.eqb c dquote); [done|].
  destruct (Ascii.eqb c "'"); [done|].
  by destruct (Ascii.eqb c "`").
Qed.

(** X18.  The text [escapeHtml] returns has none of the characters [<], [>],
    double quote, quote and backquote, whatever value it is given; a text
    with none of the six characters of the table is returned as it is; and
    the result is never shorter than the text. *)
Theorem escapeHtml_safe v :
  Forall (λ c, htmlActive c = false) (list_ascii_of_string (escapeHtml v)) ∧
  (Forall (λ c, inEscapeTable c = false) (list_ascii_of_string (toString v)) →
   escapeHtml v = toString v) ∧
  String.length (toString v) ≤ String.length (escapeHtml v).
Proof.
  unfold escapeHtml. generalize (toString v) as s. clear v. intros s. split_and!.
  - induction s as [|c s IH]; simpl; [constructor|].
    rewrite chars_app. apply Forall_app. split; [apply escapeChar_safe | done].
  - induction s as [|c s IH]; simpl; [done|].
    intros [Hc Hs]%Forall_cons. rewrite escapeChar_plain by done.
    rewrite append_cons, append_empty_l. f_equal. by apply IH.
  - induction s as [|c s IH]; simpl; [done|].
    assert (1 ≤ String.length (escapeChar c)) as Hlen.
    { unfold escapeChar. repeat (case_match; [simpl; lia|]). simpl. lia. }
    rewrite length_append. lia.
Qed.

Lemma escapeHtml_safe_witness :
  escapeHtml (JsString "plain text 123") = "plain text 123".
Proof.
  apply (escapeHtml_safe (JsString "plain text 123")).
  simpl. repeat constructor.
Defined.

Lemma split_nonempty sep s : split sep s ≠ [].
Proof.
  destruct s as [|c s]; simpl; [done|].
  destruct (Ascii.eqb c sep); [done|]. by destruct (split sep s).
Qed.

Lemma split_app_sep sep a b :
  sep ∉ list_ascii_of_string a →
  split sep (a +:+ String sep b) = a :: split sep b.
Proof.
  induction a as [|c a IH]; intros Hsep.
  - rewrite append_empty_l. simpl. by rewrite Ascii.eqb_refl.
  - simpl in Hsep. apply not_elem_of_cons in Hsep as [Hc Ha].
    rewrite append_cons. simpl. rewrite IH by done.
    destruct (Ascii.eqb c sep) eqn:Heq; [|done].
    apply Ascii.eqb_eq in Heq. congruence.
Qed.

Lemma join_cons_head sep c h t :
  join sep (String c h :: t) = String c (join sep (h :: t)).
Proof. destruct t; [done|]. simpl. by rewrite append_cons. Qed.

(** Splitting at a character and joining with it gives the text back. *)
Lemma join_split sep s : join (String sep EmptyString) (split sep s) = s.
Proof.
  induction s as [|c s IH]; [done|]. simpl.
  destruct (Ascii.eqb c sep) eqn:Heq.
  - apply Ascii.eqb_eq in Heq. subst c.
    pose proof (split_nonempty sep s) as Hne.
    destruct (split sep s) as [|h t]; [done|].
    change (join (String sep EmptyString) (EmptyString :: h :: t))
      with (EmptyString +:+ String sep EmptyString
              +:+ join (String sep EmptyString) (h :: t)).
    rewrite IH. by rewrite append_empty_l, append_cons, append_empty_l.
  - pose proof (split_nonempty sep s) as Hne.
    destruct (split sep s) as [|h t]; [done|].
    by rewrite join_cons_head, IH.
Qed.

Lemma startsWith_spec p s : startsWith p s = true ↔ ∃ rest, s = p +:+ rest.
Proof.
  revert s. induction p as [|a p IH]; intros s; simpl.
  - split; [intros _; by exists s | done].
  - destruct s as [|b s].
    + split; [done | intros [rest Hrest]; by rewrite append_cons in Hrest].
    + rewrite andb_true_iff, Ascii.eqb_eq, IH. split.
      * intros [-> [rest ->]]. exists rest. by rewrite append_cons.
      * intros [rest Hrest]. rewrite append_cons in Hrest.
        injection Hrest as -> ->. split; [done | by exists rest].
Qed.

(** X19.  The [/pm] command.  When the trimmed input is "/pm ", a name
    without a space, a space and a body, [sendMessage] sends a
    [privateMessage] whose [to] is that name and whose [message] is the body
    character for character (runs of spaces inside it included), echoes it
    escaped on the page, clears the input and sends [stopTyping]. *)
Theorem sendMessage_private value name body :
  trim value = "/pm " +:+ name +:+ " " +:+ body →
  " "%char ∉ list_ascii_of_string name →
  sendMessage value =
    [ SocketSend (PrivateMessage (JsString name) (JsString body));
      AddMessage
        ("<span class=" +:+ String dquote "pm" +:+ String dquote "><strong>To "
           +:+ escapeHtml (JsString name) +:+ " (private):</strong> "
           +:+ escapeHtml (JsString body) +:+ "</span>");
      ClearInput;
      SocketSend StopTyping ].
Proof.
  intros Htext Hname. unfold sendMessage. rewrite Htext.
  assert (startsWith "/pm " ("/pm " +:+ name +:+ " " +:+ body) = true) as ->.
  { apply startsWith_spec. by eexists. }
  assert (split " " ("/pm " +:+ name +:+ " " +:+ body)
          = ["/pm"; name] ++ split " " body) as Hsplit.
  { change ("/pm " +:+ name +:+ " " +:+ body)
      with ("/pm" +:+ String " " (name +:+ String " " body)).
    rewrite split_app_sep.
    - by rewrite split_app_sep.
    - cbn. intros Hin.
      repeat (apply elem_of_cons in Hin as [Hin|Hin]; [discriminate|]).
      by apply elem_of_nil in Hin. }
  cbv zeta. rewrite Hsplit. cbn [app drop arrayGet lookup list_lookup].
  rewrite drop_0, join_split. by rewrite append_cons.
Qed.

Lemma sendMessage_private_witness :
  sendMessage "  /pm bob see  you at 5 " =
    [ SocketSend (PrivateMessage (JsString "bob") (JsString "see  you at 5"));
      AddMessage
        ("<span class=" +:+ String dquote "pm" +:+ String dquote "><strong>To "
           +:+ escapeHtml (JsString "bob") +:+ " (private):</strong> "
           +:+ escapeHtml (JsString "see  you at 5") +:+ "</span>");
      ClearInput;
      SocketSend StopTyping ].
Proof.
  apply (sendMessage_private "  /pm bob see  you at 5 " "bob" "see  you at 5").
  - vm_compute. reflexivity.
  - cbn. intros Hin.
    repeat (apply elem_of_cons in Hin as [Hin|Hin]; [discriminate|]).
    by apply elem_of_nil in Hin.
Defined.

(** The first part of a split has no separator in it. *)
Lemma split_head_no_sep sep s h t :
  split sep s = h :: t → sep ∉ list_ascii_of_string h.
Proof.
  revert h t. induction s as [|c s IH]; intros h t; simpl.
  - intros [= <- <-]. apply not_elem_of_nil.
  - destruct (Ascii.eqb c sep) eqn:Heq.
    + intros [= <- <-]. apply not_elem_of_nil.
    + destruct (split sep s) as [|h' t'] eqn:Hs.
      * intros [= <- <-]. simpl. apply not_elem_of_cons. split.
        -- intros ->. by rewrite Ascii.eqb_refl in Heq.
        -- apply not_elem_of_nil.
      * intros [= <- <-]. simpl. apply not_elem_of_cons. split.
        -- intros ->. by rewrite Ascii.eqb_refl in Heq.
        -- by apply (IH h' t').
Qed.

(** X20.  What [sendMessage] sends.  Input whose trimmed text is empty
    (blank input) sends nothing and does nothing.  Input that does not
    start with "/pm " sends one [chatMessage] with the trimmed text, clears
    the input and sends [stopTyping].  Input of the form "/pm " followed by
    [rest] sends one [privateMessage] whose [to] is the part of [rest] before
    its first space and whose [message] is what follows that space (empty
    when there is no space), echoes them escaped, clears the input and sends
    [stopTyping]; [to] is always a string. *)
Theorem sendMessage_sends value :
  (allWhiteSpace value → trim value = EmptyString) ∧
  (trim value = EmptyString → sendMessage value = []) ∧
  (trim value ≠ EmptyString → startsWith "/pm " (trim value) = false →
   sendMessage value =
     [ SocketSend (ChatMessage (JsString (trim value)));
       ClearInput;
       SocketSend StopTyping ]) ∧
  (∀ rest, trim value = "/pm " +:+ rest →
     ∃ to parts,
       split " " rest = to :: parts ∧
       rest = join " " (to :: parts) ∧
       (" "%char ∉ list_ascii_of_string to) ∧
       sendMessage value =
         [ SocketSend (PrivateMessage (JsString to) (JsString (join " " parts)));
           AddMessage
             ("<span class=" +:+ String dquote "pm" +:+ String dquote "><strong>To "
                +:+ escapeHtml (JsString to) +:+ " (private):</strong> "
                +:+ escapeHtml (JsString (join " " parts)) +:+ "</span>");
           ClearInput;
           SocketSend StopTyping ]).
Proof.
  split_and!.
  - intros Hws. unfold trim. by rewrite trimStart_allWhiteSpace.
  - intros Hempty. unfold sendMessage. by rewrite Hempty.
  - intros Hne Hpm. unfold sendMessage. rewrite Hpm.
    by destruct (trim value).
  - intros rest Hrest.
    pose proof (split_nonempty " " rest) as Hne.
    destruct (split " " rest) as [|to parts] eqn:Hsplit; [done|].
    exists to, parts. split_and!; [done| | |].
    + by rewrite <- Hsplit, join_split.
    + apply (split_head_no_sep " " rest to parts Hsplit).
    + unfold sendMessage. rewrite Hrest.
      assert (startsWith "/pm " ("/pm " +:+ rest) = true) as ->.
      { apply startsWith_spec. by eexists. }
      assert (split " " ("/pm " +:+ rest) = "/pm" :: to :: parts) as Hall.
      { change ("/pm " +:+ rest) with ("/pm" +:+ String " " rest).
        rewrite split_app_sep, Hsplit; [done|]. cbn. intros Hin.
        repeat (apply elem_of_cons in Hin as [Hin|Hin]; [discriminate|]).
        by apply elem_of_nil in Hin. }
      cbv zeta. rewrite Hall. cbn [drop arrayGet lookup list_lookup].
      rewrite drop_0. by rewrite append_cons.
Qed.

Lemma sendMessage_sends_witness :
  sendMessage "  hello there " =
    [ SocketSend (ChatMessage (JsString "hello there"));
      ClearInput;
      SocketSend StopTyping ] ∧
  sendMessage "/pm bob" =
    [ SocketSend (PrivateMessage (JsString "bob") (JsString EmptyString));
      AddMessage
        ("<span class=" +:+ String dquote "pm" +:+ String dquote "><strong>To "
           +:+ "bob" +:+ " (private):</strong> " +:+ "</span>");
      ClearInput;
      SocketSend StopTyping ].
Proof.
  split.
  - destruct (sendMessage_sends "  hello there ") as (_ & _ & Hchat & _).
    apply Hchat; [vm_compute; discriminate | vm_compute; reflexivity].
  - destruct (sendMessage_sends "/pm bob") as (_ & _ & _ & Hpm).
    destruct (Hpm "bob") as (to & parts & Hsplit & _ & _ & Hsend).
    + vm_compute. reflexivity.
    + vm_compute in Hsplit. injection Hsplit as <- <-. exact Hsend.
Defined.

(** X21.  Joining from the bundled client.  A user name that is blank
    only raises the alert and sends nothing.  Any other user name makes the
    client send exactly one [joinRoom], with the trimmed name and the room
    selected; the session the server stores for that event has the trimmed
    name cut to 32 characters (the "Anonymous" default cannot occur) and the
    trimmed room, "General" when that is empty. *)
Theorem clickJoin_session usernameValue roomValue :
  (allWhiteSpace usernameValue → trim usernameValue = EmptyString) ∧
  (trim usernameValue = EmptyString →
   clickJoin usernameValue roomValue = [Alert "Please enter a username"]) ∧
  (trim usernameValue ≠ EmptyString →
   clickJoin usernameValue roomValue =
     [SocketSend (JoinRoom (JsString (trim usernameValue)) (JsString roomValue))] ∧
   ∀ st sid,
     clients (joinRoom st sid (JsString (trim usernameValue)) (JsString roomValue)).1
       !! sid =
       Some {| username := substring0 32 (trim usernameValue);
               room := orDefault (trim roomValue) "General" |}).
Proof.
  unfold clickJoin. split_and!.
  - intros Hws. unfold trim. by rewrite trimStart_allWhiteSpace.
  - by intros ->.
  - intros Hne. split.
    + by destruct (trim usernameValue).
    + intros st sid. rewrite joinRoom_session. do 2 f_equal.
      unfold normUsername. cbn [toString]. rewrite trim_idem.
      by destruct (trim usernameValue).
Qed.

Lemma clickJoin_session_witness :
  clickJoin "  alice " "Tech" =
    [SocketSend (JoinRoom (JsString "alice") (JsString "Tech"))] ∧
  clients (joinRoom init "a" (JsString "alice") (JsString "Tech")).1 !! "a" =
    Some {| username := "alice"; room := "Tech" |}.
Proof.
  destruct (clickJoin_session "  alice " "Tech") as (_ & _ & Hjoin).
  destruct Hjoin as [Hsend Hstore]; [vm_compute; discriminate|].
  split; [exact Hsend | exact (Hstore init "a")].
Defined.

(** ** Histories, from any state *)

Lemma pushLimited_suffix a m : pushLimited a m `suffix_of` a ++ [m].
Proof.
  unfold pushLimited. cbv zeta. case_decide; [|done].
  destruct (a ++ [m]) as [|x l]; [done|]. simpl. by apply suffix_cons_r.
Qed.

Lemma foldl_pushLimited_suffix a ms : foldl pushLimited a ms `suffix_of` a ++ ms.
Proof.
  revert a. induction ms as [|m ms IH]; intros a; simpl.
  - by rewrite app_nil_r.
  - etrans; [apply IH|].
    replace (a ++ m :: ms) with ((a ++ [m]) ++ ms) by (by rewrite <- app_assoc).
    apply suffix_app, pushLimited_suffix.
Qed.

(** X15.  Histories are append-only up to eviction.  From any state and
    along any sequence of events, the history of a room afterwards is a
    suffix of the history before followed by the messages broadcast to the
    room in between, in order; when the history before has at most 200
    entries it is the last 200 of them. *)
Theorem history_append_only st es rname :
  let before := roomHistory st rname in
  let sent := sentTo rname (run st es).2 in
  roomHistory (run st es).1 rname `suffix_of` before ++ sent ∧
  (length before ≤ 200 →
   roomHistory (run st es).1 rname = sliceLast 200 (before ++ sent)).
Proof.
  intros before sent. rewrite run_history. fold before sent. split.
  - apply foldl_pushLimited_suffix.
  - intros Hlen. rewrite <- (sliceLast_all 200 before) at 1 by done.
    apply foldl_pushLimited.
Qed.

Lemma history_append_only_witness :
  roomHistory (run st_alice_bob (chatBurst "a" 3 10)).1 "General" =
    sliceLast 200 (roomHistory st_alice_bob "General"
                     ++ sentTo "General" (run st_alice_bob (chatBurst "a" 3 10)).2).
Proof.
  apply (history_append_only st_alice_bob (chatBurst "a" 3 10) "General").
  vm_compute. lia.
Defined.

(** ** chatMessage: the message appended *)

(** Every timestamp in a history is the clock reading of one of the
    events handled. *)
Lemma history_times es rn m :
  m ∈ roomHistory (run init es).1 rn → ∃ e, e ∈ es ∧ msg_ts m = at_time e.
Proof.
  intros Hin.
  assert (msg_ts m ∈ at_time <$> es) as Hts.
  { apply (elem_of_sublist (msg_ts <$> roomHistory (run init es).1 rn)).
    - apply list_elem_of_fmap. by exists m.
    - rewrite history_is_recent_log. unfold sliceLast.
      change (@skipn Message) with (@drop Message). rewrite fmap_drop.
      etrans; [apply sublist_drop | apply sentTo_times]. }
  apply list_elem_of_fmap in Hts as (e & Hts & He). by exists e.
Qed.

Lemma pushLimited_over a m :
  200 ≤ length a → pushLimited a m = tail a ++ [m].
Proof.
  intros Hlen. unfold pushLimited. cbv zeta.
  rewrite decide_True by (rewrite length_app; simpl; lia).
  destruct a; [simpl in Hlen; lia | done].
Qed.

(** C4.  A [chatMessage] from a connection with a session makes one call:
    it emits a message with [io.to] on the session's room, the broadcast
    that includes the sender.  The author of that message is the session's
    username, its text is [String(text)] cut to 1000 characters, and its
    timestamp is the clock read by the handler, whatever the payload.  The
    message is appended to the history of the session's room: the history
    afterwards is the one before followed by the message, without its first
    entry when it held 200 or more.  No other history, no roster and no
    session changes.  When the clock never runs backwards, the timestamp
    is not earlier than any timestamp already in the history. *)
Theorem chatMessage_appends st sid now text info :
  clients st !! sid = Some info →
  let old := roomHistory st (room info) in
  let st' := (chatMessage st sid now text).1 in
  ∃ msg,
    (chatMessage st sid now text).2 = [Emit (IoTo (room info)) (MessageEv msg)] ∧
    msg_username msg = username info ∧
    msg_text msg = substring0 1000 (toString text) ∧
    msg_ts msg = now ∧
    String.length (msg_text msg) = 1000 `min` String.length (toString text) ∧
    (∃ rest, toString text = msg_text msg +:+ rest) ∧
    (String.length (toString text) ≤ 1000 → msg_text msg = toString text) ∧
    (length old < 200 → roomHistory st' (room info) = old ++ [msg]) ∧
    (200 ≤ length old → roomHistory st' (room info) = tail old ++ [msg]) ∧
    (∀ rn, rn ≠ room info → roomHistory st' rn = roomHistory st rn) ∧
    (∀ rn, roomUsers st' rn = roomUsers st rn) ∧
    clients st' = clients st ∧
    (∀ es, st = (run init es).1 →
           Forall (λ e, (at_time e ≤ now)%Z) es →
           Forall (λ m, (msg_ts m ≤ msg_ts msg)%Z) old).
Proof.
  intros Hinfo old st'.
  destruct (chatMessage_joined st sid now text info Hinfo)
    as (Hacts & Hc & Hroom & Hother).
  destruct (chatMessage_effect st sid now text info Hinfo) as (_ & Hu).
  exists {| msg_username := username info;
            msg_text := substring0 1000 (toString text);
            msg_ts := now |}.
  assert (roomHistory st' (room info) =
            pushLimited old {| msg_username := username info;
                               msg_text := substring0 1000 (toString text);
                               msg_ts := now |}) as Hhist.
  { unfold roomHistory at 1. unfold st'. by rewrite Hroom. }
  split_and!; try done.
  - apply substring0_length.
  - apply substring0_prefix.
  - apply substring0_short.
  - intros Hlen. by rewrite Hhist, pushLimited_room.
  - intros Hlen. by rewrite Hhist, pushLimited_over.
  - intros rn Hrn. unfold roomHistory, st'. by rewrite Hother.
  - intros es -> Hclock. apply Forall_forall. intros m Hin. simpl.
    apply history_times in Hin as (e & He & ->).
    rewrite Forall_forall in Hclock. by apply Hclock.
Qed.

Lemma chatMessage_appends_witness :
  roomHistory (chatMessage st_hi "b" 7 (JsString "yo")).1 "General" =
    [ {| msg_username := "alice"; msg_text := "hi"; msg_ts := 3 |};
      {| msg_username := "bob"; msg_text := "yo"; msg_ts := 7 |} ] ∧
  (chatMessage st_hi "b" 7 (JsString "yo")).2 =
    [ Emit (IoTo "General")
        (MessageEv {| msg_username := "bob"; msg_text := "yo"; msg_ts := 7 |}) ].
Proof.
  destruct (chatMessage_appends st_hi "b" 7 (JsString "yo")
              {| username := "bob"; room := "General" |})
    as (msg & Hacts & Hu & Ht & Hts & _ & _ & _ & Happ & _).
  - vm_compute. reflexivity.
  - destruct msg as [mu mt mts]. simpl in Hu, Ht, Hts. subst mu mt mts. split.
    + etrans; [apply Happ; vm_compute; lia|]. vm_compute. reflexivity.
    + exact Hacts.
Defined.

(** ** privateMessage: who receives it *)

(** C5.  The private message does not always reach the resolved
    connection only.  The handler addresses it with [io.to] on the id of
    the first roster entry named [to]; that is a broadcast to the Socket.IO
    room of that name, and [joinRoom] puts a socket in the room of any name
    it is given.  After "c" joined the room named "b", the id of the socket
    of "bob", a private message from "alice" to "bob" (a member of her
    room, first on the roster under that name, ids not empty) is emitted to
    the room "b", in which the socket "c" is too. *)
Theorem privateMessage_eavesdropped :
  let st := (run init es_eaves).1 in
  clients st !! "a" = Some {| username := "alice"; room := "General" |} ∧
  roomUsers st "General" = [("a", "alice"); ("b", "bob")] ∧
  noSwitch init es_eaves = true ∧
  privateMessage st "a" 9 (JsString "bob") (JsString "secret") =
    (st, [ Emit (IoTo "b") (PrivateMessageEv "alice" (JsString "secret") 9);
           Emit (SocketEmit "a") (System "Private message sent to bob") ]) ∧
  subscribed "c" "b" (run init es_eaves).2 = true ∧
  "c" ≠ "b".
Proof. split_and!; try (vm_compute; reflexivity). discriminate. Qed.
